(** * whatsapp-backend: payload ingest, message store and change feed

    A shallow embedding of [scripts/process_payloads.js] (the batch ingest)
    and of [server.js] (the REST handlers and the change-stream translator),
    with the MongoDB collection [processed_messages] as an explicit state.

    Layout:
    - [JS]      JSON values as [JSON.parse] returns them and the JavaScript
                operators the sources apply to them;
    - [Mongo]   documents of the collection and the collection operations the
                sources call ([updateOne], [updateMany], [find], [aggregate]);
    - [Ingest]  [process_payloads.js];
    - [Server]  [server.js];
    - the properties. *)

From Stdlib Require Import ZArith List String Ascii Bool Lia Arith.
From Stdlib Require Import Sorted Permutation DecimalString DecimalPos DecimalZ.
Import ListNotations.
Open Scope string_scope.
Open Scope Z_scope.
Open Scope list_scope.
Set Warnings "-register-all".

(* ===================================================================== *)
(** ** JavaScript values *)
(* ===================================================================== *)

Module JS.

(** A value produced by [JSON.parse], plus [undefined], which property
    access yields.

    A string is given by the bytes of its UTF-8 encoding (the payload files
    are read as ['utf8']).

    [VNum n] is the integral Number that JavaScript prints with the decimal
    digits of [n]: every integer below 2^53 in absolute value is one;
    beyond that only the integers that are the shortest decimal form of a
    Number stand for a value.  Numbers with a fraction are not modelled.

    An object is the list of its own properties, one binding per key. *)
Inductive value : Type :=
| VUndef
| VNull
| VBool (b : bool)
| VNum (n : Z)
| VStr (s : string)
| VArr (items : list value)
| VObj (props : list (string * value)).

(** What an exception carries: a [TypeError] of JavaScript, or the error
    the driver rejects a call with ([MongoError]; the only one modelled is
    the duplicate key of the unique index).  [Unsupported] is not a
    JavaScript error and no [catch] sees it: it marks a run that leaves the
    modelled fragment (an object handed to the store as a field value or as
    a query value, or an array as the [msg_id] of an ingested message, see
    [Mongo.to_bson] and [Mongo.serialize]). *)
Inductive error : Type := TypeError | MongoError | Unsupported.

Inductive result (A : Type) : Type :=
| Ok (a : A)
| Throw (e : error).
Arguments Ok {A} a.
Arguments Throw {A} e.

(** ToBoolean *)
Definition truthy (v : value) : bool :=
  match v with
  | VUndef | VNull => false
  | VBool b => b
  | VNum n => negb (n =? 0)
  | VStr s => negb (s =? "")%string
  | VArr _ | VObj _ => true
  end.

(** [a || b] *)
Definition or_else (a b : value) : value := if truthy a then a else b.

Definition nullish (v : value) : bool :=
  match v with VUndef | VNull => true | _ => false end.

Fixpoint lookup (k : string) (props : list (string * value)) : value :=
  match props with
  | [] => VUndef
  | (k', v) :: rest => if (k =? k')%string then v else lookup k rest
  end.

(** [v.k] for a receiver that is not null or undefined, and for the property
    names the sources read (none of them is defined on the prototypes of
    strings, numbers, booleans or arrays). *)
Definition get (v : value) (k : string) : value :=
  match v with
  | VObj props => lookup k props
  | _ => VUndef
  end.

(** [v.k]: a TypeError on null and undefined. *)
Definition prop (v : value) (k : string) : result value :=
  if nullish v then Throw TypeError else Ok (get v k).

(** [v?.k] *)
Definition oget (v : value) (k : string) : value :=
  if nullish v then VUndef else get v k.

(** [v?.[0]] *)
Definition oindex0 (v : value) : value :=
  match v with
  | VArr (x :: _) => x
  | VStr (String c _) => VStr (String c "")
  | VObj props => lookup "0" props
  | _ => VUndef
  end.

(** [a === b].  Two objects or arrays are equal when they are the same
    reference; the operands the sources compare sit at different places of
    the parsed tree (or one is a fresh string), so they never are. *)
Definition strict_eq (a b : value) : bool :=
  match a, b with
  | VUndef, VUndef => true
  | VNull, VNull => true
  | VBool x, VBool y => Bool.eqb x y
  | VNum x, VNum y => x =? y
  | VStr x, VStr y => (x =? y)%string
  | _, _ => false
  end.

(** [Array.isArray(v)], returning the elements. *)
Definition as_array (v : value) : option (list value) :=
  match v with VArr items => Some items | _ => None end.

Fixpoint chars (s : string) : list value :=
  match s with
  | EmptyString => []
  | String c rest => VStr (String c "") :: chars rest
  end.

(** What [for (const x of v)] iterates over: the elements of an array, the
    characters of a string (here its bytes; the sources do nothing at a
    character), a TypeError on anything else. *)
Definition iterate (v : value) : result (list value) :=
  match v with
  | VArr items => Ok items
  | VStr s => Ok (chars s)
  | _ => Throw TypeError
  end.

(** *** parseInt *)

(** The white space and the line terminators [parseInt] skips
    (StrWhiteSpaceChar of ECMAScript), by the length of their UTF-8
    encoding.  One byte: TAB, LF, VT, FF, CR, SP. *)
Definition is_ws (c : ascii) : bool :=
  let n := nat_of_ascii c in
  ((n =? 32) || (n =? 9) || (n =? 10) || (n =? 11) || (n =? 12) || (n =? 13))%nat.

(** Two bytes: U+00A0 (C2 A0). *)
Definition is_ws2 (c1 c2 : ascii) : bool :=
  ((nat_of_ascii c1 =? 194) && (nat_of_ascii c2 =? 160))%nat.

(** Three bytes: U+1680 (E1 9A 80), U+2000 to U+200A (E2 80 80 to E2 80 8A),
    U+2028 and U+2029 (E2 80 A8, E2 80 A9), U+202F (E2 80 AF),
    U+205F (E2 81 9F), U+3000 (E3 80 80), U+FEFF (EF BB BF). *)
Definition is_ws3 (c1 c2 c3 : ascii) : bool :=
  let a := nat_of_ascii c1 in
  let b := nat_of_ascii c2 in
  let c := nat_of_ascii c3 in
  (((a =? 225) && (b =? 154) && (c =? 128))
   || ((a =? 226) && (b =? 128)
       && (((128 <=? c) && (c <=? 138)) || (c =? 168) || (c =? 169) || (c =? 175)))
   || ((a =? 226) && (b =? 129) && (c =? 159))
   || ((a =? 227) && (b =? 128) && (c =? 128))
   || ((a =? 239) && (b =? 187) && (c =? 191)))%nat.

Fixpoint skip_ws (s : string) : string :=
  match s with
  | String c1 rest1 =>
      if is_ws c1 then skip_ws rest1
      else
        match rest1 with
        | String c2 rest2 =>
            if is_ws2 c1 c2 then skip_ws rest2
            else
              match rest2 with
              | String c3 rest3 => if is_ws3 c1 c2 c3 then skip_ws rest3 else s
              | EmptyString => s
              end
        | EmptyString => s
        end
  | EmptyString => s
  end.

Definition digit_val (radix : Z) (c : ascii) : option Z :=
  let n := Z.of_nat (nat_of_ascii c) in
  let d :=
    if (48 <=? n) && (n <=? 57) then Some (n - 48)
    else if (97 <=? n) && (n <=? 102) then Some (n - 87)
    else if (65 <=? n) && (n <=? 70) then Some (n - 55)
    else None in
  match d with
  | Some x => if x <? radix then Some x else None
  | None => None
  end.

(** The longest prefix of digits, read in [radix]; [acc = None] as long as
    no digit was read. *)
Fixpoint read_digits (radix : Z) (s : string) (acc : option Z) : option Z :=
  match s with
  | String c rest =>
      match digit_val radix c with
      | Some d =>
          read_digits radix rest
            (Some (match acc with Some a => a * radix + d | None => d end))
      | None => acc
      end
  | EmptyString => acc
  end.

Definition strip_hex_prefix (s : string) : option string :=
  match s with
  | String "0" (String "x" rest) => Some rest
  | String "0" (String "X" rest) => Some rest
  | _ => None
  end.

(** [parseInt(s)] for a string; [None] is NaN. *)
Definition parseInt_string (s : string) : option Z :=
  let s := skip_ws s in
  let '(neg, s) :=
    match s with
    | String "-" rest => (true, rest)
    | String "+" rest => (false, rest)
    | _ => (false, s)
    end in
  let magnitude :=
    match strip_hex_prefix s with
    | Some rest => read_digits 16 rest None
    | None => read_digits 10 s None
    end in
  option_map (fun n => if neg then - n else n) magnitude.

(** The first decimal digit of a number that is not negative: the number
    is divided by 10 until one digit is left, in at most [fuel] divisions. *)
Fixpoint first_digit (fuel : nat) (n : Z) : Z :=
  match fuel with
  | O => n
  | S fuel' => if n <? 10 then n else first_digit fuel' (n / 10)
  end.

Definition leading_digit (n : Z) : Z :=
  first_digit (Z.to_nat (Z.log2 (Z.abs n))) (Z.abs n).

(** [parseInt(n)] for a number: [n] is first converted to a string.  Below
    1e21 the string holds the digits of [n].  From 1e21 on it has the form
    [d.ddde+21], of which [parseInt] reads the first digit. *)
Definition parseInt_number (n : Z) : Z :=
  if Z.abs n <? 10 ^ 21 then n else Z.sgn n * leading_digit n.

(** [parseInt(v)]: [v] is first converted to a string.  An array converts
    to its elements joined by commas, so only its first element counts
    (null and undefined elements convert to the empty string). *)
Fixpoint parseInt (v : value) : option Z :=
  match v with
  | VStr s => parseInt_string s
  | VNum n => Some (parseInt_number n)
  | VArr (x :: _) => parseInt x
  | _ => None
  end.

(** *** Date *)

Inductive Date : Type :=
| DateAt (ms : Z)
| InvalidDate.

Definition MAX_TIME : Z := 8640000000000000.

(** [new Date(ms)] for a number, [None] being NaN: the time value is kept
    when it lies within 8.64e15 ms of the epoch. *)
Definition new_Date (ms : option Z) : Date :=
  match ms with
  | Some t => if Z.abs t <=? MAX_TIME then DateAt t else InvalidDate
  | None => InvalidDate
  end.

End JS.

(* ===================================================================== *)
(** ** The collection [processed_messages] *)
(* ===================================================================== *)

Module Mongo.
Import JS.

(** A field of a stored document: a scalar, an array of such values, or
    [BMissing] when the document has no such field ([BMissing] is no element
    of an array).  Embedded documents are outside the model. *)
Inductive bson : Type :=
| BMissing
| BNull
| BBool (b : bool)
| BNum (n : Z)
| BStr (s : string)
| BArr (items : list bson).

(** What the driver writes for a JavaScript value: [undefined] is written
    as null, an array element by element.  [None] for an object, and for an
    array that holds one: as a field value an object is an embedded
    document, as a query value it can be a query operator. *)
Fixpoint to_bson (v : value) : option bson :=
  match v with
  | VUndef | VNull => Some BNull
  | VBool b => Some (BBool b)
  | VNum n => Some (BNum n)
  | VStr s => Some (BStr s)
  | VArr items =>
      option_map BArr
        ((fix each (l : list value) : option (list bson) :=
            match l with
            | [] => Some []
            | x :: rest =>
                match to_bson x, each rest with
                | Some b, Some bs => Some (b :: bs)
                | _, _ => None
                end
            end) items)
  | VObj _ => None
  end.

(** Equality of two values: arrays are equal element by element. *)
Fixpoint bson_eqb (a b : bson) : bool :=
  match a, b with
  | BMissing, BMissing => true
  | BNull, BNull => true
  | BBool x, BBool y => Bool.eqb x y
  | BNum x, BNum y => x =? y
  | BStr x, BStr y => (x =? y)%string
  | BArr xs, BArr ys =>
      (fix each (l : list bson) (l' : list bson) : bool :=
         match l, l' with
         | [], [] => true
         | x :: rest, y :: rest' => bson_eqb x y && each rest rest'
         | _, _ => false
         end) xs ys
  | _, _ => false
  end.

(** The elements of an array field; a field that is no array has none. *)
Definition elements (f : bson) : list bson :=
  match f with BArr items => items | _ => [] end.

(** The query [{ field: q }]: the field equals [q] or is an array with an
    element equal to [q]; null also selects the documents that lack the
    field. *)
Definition field_matches (q f : bson) : bool :=
  match q with
  | BNull =>
      match f with
      | BNull | BMissing => true
      | _ => existsb (bson_eqb BNull) (elements f)
      end
  | _ => bson_eqb q f || existsb (bson_eqb q) (elements f)
  end.

(** The value of ['$field'] in an aggregation expression and in a group
    key: a missing field reads as null. *)
Definition field_value (f : bson) : bson :=
  match f with BMissing => BNull | _ => f end.

(** The fields both sources put in a message document, over the type of a
    field value: [fields value] is the object literal [doc] of the sources,
    [fields bson] what is stored. *)
Record fields (V : Type) : Type := mkFields {
  wa_id : V;
  from : V;
  to : V;
  msg_id : V;
  meta_msg_id : V;
  direction : V;
  text : V;
  status : V;
  timestamp : Date;
  createdAt : Date
}.
Arguments mkFields {V}.
Arguments wa_id {V}. Arguments from {V}. Arguments to {V}.
Arguments msg_id {V}. Arguments meta_msg_id {V}. Arguments direction {V}.
Arguments text {V}. Arguments status {V}. Arguments timestamp {V}.
Arguments createdAt {V}.

(** A stored document: the message fields, the [_id] the store assigns and
    [updatedAt]. *)
Record doc : Type := mkDoc {
  _id : nat;
  content : fields bson;
  updatedAt : Date
}.

(** A [Date] as the driver writes it: the 64-bit integer of its time
    value, and 0 for an Invalid Date, whose time value is NaN.  What is read
    back for an Invalid Date is the epoch. *)
Definition stored_date (d : Date) : Date :=
  match d with
  | DateAt ms => DateAt ms
  | InvalidDate => DateAt 0
  end.

Definition is_array (f : bson) : bool :=
  match f with BArr _ => true | _ => false end.

(** The object literal as the driver writes it.  [None] when a field holds
    an object, and when [msg_id] is an array, which would make the unique
    index on [msg_id] a multikey index for this document. *)
Definition serialize (d : fields value) : option (fields bson) :=
  match to_bson (wa_id d), to_bson (from d), to_bson (to d),
        to_bson (msg_id d), to_bson (meta_msg_id d), to_bson (direction d),
        to_bson (text d), to_bson (status d) with
  | Some w, Some f, Some t, Some i, Some c, Some dir, Some tx, Some st =>
      if is_array i then None
      else Some (mkFields w f t i c dir tx st
                   (stored_date (timestamp d)) (stored_date (createdAt d)))
  | _, _, _, _, _, _, _, _ => None
  end.

(** The fields of [f] with another [createdAt]. *)
Definition created_at (t : Date) (f : fields bson) : fields bson :=
  mkFields (wa_id f) (from f) (to f) (msg_id f) (meta_msg_id f)
    (direction f) (text f) (status f) (timestamp f) t.

(** [$set: { updatedAt }] *)
Definition set_updatedAt (at_ : Date) (d : doc) : doc :=
  mkDoc (_id d) (content d) (stored_date at_).

(** [$set: { status, updatedAt }] *)
Definition set_status (st : bson) (at_ : Date) (d : doc) : doc :=
  let c := content d in
  mkDoc (_id d)
    (mkFields (wa_id c) (from c) (to c) (msg_id c) (meta_msg_id c)
       (direction c) (text c) st (timestamp c) (createdAt c))
    (stored_date at_).

(** The keys a document with the [msg_id] [f] has in the unique sparse
    index on [msg_id]: none when it lacks the field; the elements of an
    array ([BMissing] stands for the key of an empty array, which is
    [undefined]); else the value. *)
Definition index_keys (f : bson) : list bson :=
  match f with
  | BMissing => []
  | BArr [] => [BMissing]
  | BArr items => items
  | _ => [f]
  end.

(** The collection in its natural (insertion) order. *)
Definition collection : Type := list doc.

(** [updateOne(filter, update)]: the first document the filter selects is
    updated; the result carries [matchedCount].  MongoDB does not say which
    of several selected documents comes first; the model takes the order of
    the collection. *)
Fixpoint updateOne (filter : doc -> bool) (update : doc -> doc)
    (c : collection) : collection * nat :=
  match c with
  | [] => ([], 0%nat)
  | d :: rest =>
      if filter d then (update d :: rest, 1%nat)
      else let '(rest', n) := updateOne filter update rest in (d :: rest', n)
  end.

(** [updateMany(filter, update)] *)
Definition updateMany (filter : doc -> bool) (update : doc -> doc)
    (c : collection) : collection * nat :=
  (map (fun d => if filter d then update d else d) c,
   List.length (List.filter filter c)).

(** [{ msg_id: q }] *)
Definition by_msg_id (q : bson) (d : doc) : bool :=
  field_matches q (msg_id (content d)).

(** [{ $or: [{ msg_id: q }, { meta_msg_id: q }] }] *)
Definition by_either_id (q : bson) (d : doc) : bool :=
  field_matches q (msg_id (content d))
  || field_matches q (meta_msg_id (content d)).

(** [{ wa_id, direction: 'inbound', status: { $ne: 'read' } }] *)
Definition unread_inbound_of (wa : string) (d : doc) : bool :=
  field_matches (BStr wa) (wa_id (content d))
  && field_matches (BStr "inbound") (direction (content d))
  && negb (field_matches (BStr "read") (status (content d))).

(** [updateOne({ msg_id: q }, { $setOnInsert: f, $set: { updatedAt } },
    { upsert: true })]: when no document is selected, one is inserted with
    the fields of [f] and a fresh [_id].  Returns the collection and whether
    an insert took place.  For a [q] that is no array the unique sparse
    index on [msg_id] cannot reject this insert: it takes place only when no
    document has [q] as its [msg_id] or among the elements of its
    [msg_id]. *)
Definition upsert (q : bson) (f : fields bson) (at_ : Date) (oid : nat)
    (c : collection) : collection * bool :=
  if existsb (by_msg_id q) c
  then (fst (updateOne (by_msg_id q) (set_updatedAt at_) c), false)
  else (c ++ [mkDoc oid f (stored_date at_)], true).

(** *** Ordering

    The store orders dates by their time value.  A date written through
    [stored_date] has one; [invalid_time] is the place of an Invalid Date
    in a collection that is given with one. *)
Section Ordering.
Variable invalid_time : Z.

Definition time_of (d : Date) : Z :=
  match d with DateAt ms => ms | InvalidDate => invalid_time end.

(** A stable sort: documents with equal keys keep the order they come
    in.  (MongoDB leaves the order of documents with equal sort keys open.) *)
Fixpoint insert_sorted {A : Type} (le : A -> A -> bool) (x : A)
    (l : list A) : list A :=
  match l with
  | [] => [x]
  | y :: rest =>
      if le x y then x :: y :: rest else y :: insert_sorted le x rest
  end.

Definition sort_by {A : Type} (le : A -> A -> bool) (l : list A) : list A :=
  fold_right (insert_sorted le) [] l.

(** [{ $sort: { timestamp: -1 } }] *)
Definition newest_first (a b : doc) : bool :=
  time_of (timestamp (content b)) <=? time_of (timestamp (content a)).

(** [.sort({ timestamp: 1, createdAt: 1 })] *)
Definition oldest_first (a b : doc) : bool :=
  let ta := time_of (timestamp (content a)) in
  let tb := time_of (timestamp (content b)) in
  (ta <? tb)
  || ((ta =? tb)
      && (time_of (createdAt (content a)) <=? time_of (createdAt (content b)))).

(** [find({ wa_id }).sort({ timestamp: 1, createdAt: 1 })] *)
Definition find_by_wa_id (wa : string) (c : collection) : list doc :=
  sort_by oldest_first
    (List.filter (fun d => field_matches (BStr wa) (wa_id (content d))) c).
End Ordering.

End Mongo.

(* ===================================================================== *)
(** ** Effects: the collection, the clock, uncaught exceptions *)
(* ===================================================================== *)

Module Effects.
Import JS Mongo.

(** The state the sources act on: the collection, the next [_id] the store
    hands out, and how many times the system clock was read. *)
Record world : Type := mkWorld {
  col : collection;
  next_oid : nat;
  ticks : nat
}.

(** A computation changes the world and returns, or throws; what it wrote
    before throwing stays written. *)
Definition M (A : Type) : Type := world -> world * result A.

Definition ret {A : Type} (a : A) : M A := fun w => (w, Ok a).

Definition bind {A B : Type} (m : M A) (k : A -> M B) : M B :=
  fun w =>
    match m w with
    | (w', Ok a) => k a w'
    | (w', Throw e) => (w', Throw e)
    end.

Definition throw {A : Type} (e : error) : M A := fun w => (w, Throw e).

Definition lift {A : Type} (r : result A) : M A :=
  match r with Ok a => ret a | Throw e => throw e end.

(** [try { m } catch (err) { h }]: [h] runs when [m] throws an error of
    JavaScript or of the driver. *)
Definition try_catch {A : Type} (m h : M A) : M A :=
  fun w =>
    match m w with
    | (w', Ok a) => (w', Ok a)
    | (w', Throw Unsupported) => (w', Throw Unsupported)
    | (w', Throw _) => h w'
    end.

Declare Scope monad_scope.
Delimit Scope monad_scope with monad.
Notation "x <- m ;; k" := (bind m (fun x => k))
  (at level 100, m at next level, right associativity) : monad_scope.
Notation "m ;; k" := (bind m (fun _ => k))
  (at level 100, right associativity) : monad_scope.

(** [for (const x of l) body(x)] *)
Fixpoint for_each {X : Type} (l : list X) (body : X -> M unit) : M unit :=
  match l with
  | [] => ret tt
  | x :: rest => bind (body x) (fun _ => for_each rest body)
  end.

(** Two computations that act alike on every world. *)
Definition equiv {A : Type} (m m' : M A) : Prop := forall w, m w = m' w.
Infix "==" := equiv (at level 70, no associativity) : monad_scope.

Section Clock.
(** [clock n] is the time the system clock shows when it is read for the
    [n]-th time. *)
Variable clock : nat -> Z.

(** [new Date()] *)
Definition now : M Date :=
  fun w => (mkWorld (col w) (next_oid w) (S (ticks w)),
            Ok (DateAt (clock (ticks w)))).
End Clock.

(** A query on the collection. *)
Definition find {A : Type} (query : collection -> A) : M A :=
  fun w => (w, Ok (query (col w))).

(** An update of the documents of the collection, returning its count. *)
Definition update (op : collection -> collection * nat) : M nat :=
  fun w =>
    let '(c, n) := op (col w) in
    (mkWorld c (next_oid w) (ticks w), Ok n).

(** [col.updateOne({ msg_id: doc.msg_id },
      { $setOnInsert: doc, $set: { updatedAt } }, { upsert: true })] *)
Definition updateOne_upsert (doc : fields value) (updatedAt : Date) : M bool :=
  fun w =>
    match serialize doc with
    | None => (w, Throw Unsupported)
    | Some f =>
        let '(c, inserted) :=
          upsert (msg_id f) f updatedAt (next_oid w) (col w) in
        (mkWorld c (if inserted then S (next_oid w) else next_oid w) (ticks w),
         Ok inserted)
    end.

(** [col.updateOne({ $or: [{ msg_id: id }, { meta_msg_id: id }] },
      { $set: { status, updatedAt } })], returning [matchedCount]. *)
Definition updateOne_status (id status : value) (updatedAt : Date) : M nat :=
  fun w =>
    match to_bson id, to_bson status with
    | Some q, Some st =>
        update (updateOne (by_either_id q) (set_status st updatedAt)) w
    | _, _ => (w, Throw Unsupported)
    end.

End Effects.

(* ===================================================================== *)
(** ** scripts/process_payloads.js *)
(* ===================================================================== *)

Module Ingest.
Import JS Mongo Effects.
Local Open Scope monad_scope.

Section Run.
(** [process.env.BUSINESS_NUMBER]: unset, or a string. *)
Variable BUSINESS_NUMBER : option string.
Variable clock : nat -> Z.

Definition env (x : option string) : value :=
  match x with Some s => VStr s | None => VUndef end.

(** [new Date(parseInt(m.timestamp) * 1000)] *)
Definition message_time (m : value) : Date :=
  new_Date (option_map (fun n => n * 1000) (parseInt (get m "timestamp"))).

(** [value.metadata?.phone_number_id || ''] *)
Definition phone_number_id (value : value) : JS.value :=
  or_else (oget (get value "metadata") "phone_number_id") (VStr "").

(** [process.env.BUSINESS_NUMBER || ''] *)
Definition business_number : JS.value :=
  or_else (env BUSINESS_NUMBER) (VStr "").

(** The object literal [doc] of the envelope branch (lines 67-78), for a
    message [m] that is not null, inside the change value [value]. *)
Definition envelope_doc (value m : value) (created : Date) : fields JS.value :=
  {| wa_id := get m "from";
     from := or_else
               (oget (oget (oindex0 (get value "contacts")) "profile") "name")
               (get m "from");
     to := phone_number_id value;
     msg_id := get m "id";
     meta_msg_id := or_else (oget (get m "context") "id") VNull;
     direction := if strict_eq (get m "from") (phone_number_id value)
                  then VStr "outbound" else VStr "inbound";
     text := or_else (oget (get m "text") "body")
               (or_else (get m "body") (VStr ""));
     status := VStr "received";
     timestamp := message_time m;
     createdAt := created |}.

(** The object literal [doc] of the fallback branch (lines 105-116). *)
Definition fallback_doc (m : value) (created : Date) : fields JS.value :=
  {| wa_id := get m "from";
     from := get m "from";
     to := or_else (get m "to") (VStr "");
     msg_id := get m "id";
     meta_msg_id := or_else (oget (get m "context") "id") VNull;
     direction := if strict_eq (get m "from") business_number
                  then VStr "outbound" else VStr "inbound";
     text := or_else (oget (get m "text") "body") (VStr "");
     status := VStr "received";
     timestamp := message_time m;
     createdAt := created |}.

(** The body of a loop over messages: build [doc], upsert it. *)
Definition process_message (make : value -> Date -> fields JS.value)
    (m : value) : M unit :=
  _ <- lift (prop m "from") ;;
  created <- now clock ;;
  let doc := make m created in
  updated <- now clock ;;
  _ <- updateOne_upsert doc updated ;;
  ret tt.

(** The body of a loop over statuses (lines 90-97 and 126-133). *)
Definition process_status (s : value) : M unit :=
  s_id <- lift (prop s "id") ;;
  let id := or_else s_id (get s "meta_msg_id") in
  let status := get s "status" in
  updated <- now clock ;;
  _ <- updateOne_status id status updated ;;
  ret tt.

(** [if (Array.isArray(v)) for (const x of v) body(x)] *)
Definition if_array (v : value) (body : value -> M unit) : M unit :=
  match as_array v with
  | Some items => for_each items body
  | None => ret tt
  end.

(** The body of [for (const change of entry.changes || [])]. *)
Definition process_change (change : value) : M unit :=
  v <- lift (prop change "value") ;;
  let value := or_else v (VObj []) in
  if_array (get value "messages") (process_message (envelope_doc value)) ;;
  if_array (get value "statuses") process_status.

Definition process_entry (entry : value) : M unit :=
  changes <- lift (prop entry "changes") ;;
  items <- lift (iterate (or_else changes (VArr []))) ;;
  for_each items process_change.

(** The body of [for (const payload of payloads)] (lines 56-136). *)
Definition process_payload (payload : value) : M unit :=
  metaData <- lift (prop payload "metaData") ;;
  let payload_entry := get payload "entry" in
  let entries :=
    or_else (oget metaData "entry")
      (if truthy payload_entry then payload_entry else VNull) in
  match as_array entries with
  | Some es => for_each es process_entry
  | None =>
      if_array (get payload "messages") (process_message fallback_doc) ;;
      if_array (get payload "statuses") process_status
  end.

(** One file of [sample_payloads]: [None] when [JSON.parse] fails on it.
    A file that does not parse, or does not hold an array, is skipped. *)
Definition process_file (parsed : option value) : M unit :=
  match parsed with
  | None => ret tt
  | Some v =>
      match as_array v with
      | Some payloads => for_each payloads process_payload
      | None => ret tt
      end
  end.

(** [run], from the loop over the files on. *)
Definition run (files : list (option value)) : M unit :=
  for_each files process_file.
End Run.

End Ingest.

(* ===================================================================== *)
(** ** server.js *)
(* ===================================================================== *)

Module Server.
Import JS Mongo Effects.
Local Open Scope monad_scope.

(** *** The change-stream translator (lines 47-63) *)

(** A change event: [fullDocument] is null when the document of an update
    is gone by the time it is looked up. *)
Record change : Type := mkChange {
  operationType : string;
  fullDocument : option doc
}.

(** A field of a document read back from the store, as a condition. *)
Definition truthy_field (f : bson) : bool :=
  match f with
  | BMissing | BNull => false
  | BBool b => b
  | BNum n => negb (n =? 0)
  | BStr s => negb (s =? "")%string
  | BArr _ => true
  end.

(** [doc.msg_id || doc.meta_msg_id || doc._id] *)
Inductive message_ref : Type :=
| Field (f : bson)
| ObjectId (oid : nat).

Definition message_ref_of (d : doc) : message_ref :=
  if truthy_field (msg_id (content d)) then Field (msg_id (content d))
  else if truthy_field (meta_msg_id (content d))
       then Field (meta_msg_id (content d))
       else ObjectId (_id d).

(** What [io.emit] sends: the event name with its payload. *)
Inductive event : Type :=
| new_message (chatId : bson) (message : doc)
| message_status (chatId : bson) (msg_id : message_ref) (status : bson)
    (full : doc).

(** The listener of ['change']: the events it emits, in order. *)
Definition on_change (ch : change) : result (list event) :=
  if (operationType ch =? "insert")%string then
    match fullDocument ch with
    | Some d => Ok [new_message (wa_id (content d)) d]
    | None => Throw TypeError
    end
  else if (operationType ch =? "update")%string
          || (operationType ch =? "replace")%string then
    match fullDocument ch with
    | Some d =>
        Ok [message_status (wa_id (content d)) (message_ref_of d)
              (if truthy_field (status (content d))
               then status (content d) else BNull)
              d]
    | None => Throw TypeError
    end
  else Ok [].

(** The connected sockets, each with what it has received so far. *)
Definition sockets : Type := list (list event).

(** [io.emit(e)]: every connected socket receives [e]. *)
Definition emit (e : event) (io : sockets) : sockets :=
  map (fun received => received ++ [e]) io.

Definition emit_all (es : list event) (io : sockets) : sockets :=
  fold_left (fun io e => emit e io) es io.

(** The listener acting on the sockets. *)
Definition deliver (ch : change) (io : sockets) : result sockets :=
  match on_change ch with
  | Ok es => Ok (emit_all es io)
  | Throw e => Throw e
  end.

(** *** GET /api/chats (lines 89-118) *)

Module Chat.
Record t : Type := mk {
  _id : bson;
  wa_id : bson;
  name : bson;
  lastMessage : bson;
  lastTimestamp : Date;
  unreadCount : nat
}.
End Chat.

(** [$cond: [{ $and: [{ $eq: ['$direction', 'inbound'] },
                      { $ne: ['$status', 'read'] }] }, 1, 0]] *)
Definition unread_cond (d : doc) : nat :=
  if bson_eqb (field_value (direction (content d))) (BStr "inbound")
     && negb (bson_eqb (field_value (status (content d))) (BStr "read"))
  then 1%nat else 0%nat.

(** The group key [_id: '$wa_id']. *)
Definition group_key (d : doc) : bson := field_value (wa_id (content d)).

(** [$group] takes the documents one by one: the first document of a key
    opens its group and fixes the [$first] fields, every document adds to
    the [$sum]. *)
Fixpoint add_to_groups (d : doc) (gs : list Chat.t) : list Chat.t :=
  match gs with
  | [] =>
      [Chat.mk (group_key d)
         (field_value (Mongo.wa_id (content d)))
         (field_value (from (content d)))
         (field_value (text (content d)))
         (timestamp (content d))
         (unread_cond d)]
  | g :: rest =>
      if bson_eqb (Chat._id g) (group_key d)
      then Chat.mk (Chat._id g) (Chat.wa_id g) (Chat.name g)
             (Chat.lastMessage g) (Chat.lastTimestamp g)
             (Chat.unreadCount g + unread_cond d)%nat :: rest
      else g :: add_to_groups d rest
  end.

Definition group (input : list doc) : list Chat.t :=
  fold_left (fun gs d => add_to_groups d gs) input [].

Section Queries.
Variable invalid_time : Z.
Variable clock : nat -> Z.

(** [{ $sort: { lastTimestamp: -1 } }] *)
Definition latest_chat_first (a b : Chat.t) : bool :=
  time_of invalid_time (Chat.lastTimestamp b)
  <=? time_of invalid_time (Chat.lastTimestamp a).

(** The pipeline of [col.aggregate]: sort by timestamp descending, group
    by [wa_id], sort the groups by [lastTimestamp] descending. *)
Definition chats (c : collection) : list Chat.t :=
  sort_by latest_chat_first
    (group (sort_by (newest_first invalid_time) c)).

(** *** GET /api/messages/:wa_id (lines 121-138)

    The messages are read first, then the unread inbound ones are marked;
    the response holds what was read.  [wa] is [req.params.wa_id], a
    string: the two calls of the [try] block are given no other value of
    the request and do not throw here, so that its [catch] is left out. *)
Definition get_messages (wa : string) : M (list doc) :=
  msgs <- find (find_by_wa_id invalid_time wa) ;;
  updated <- now clock ;;
  _ <- update (updateMany (unread_inbound_of wa) (set_status (BStr "read") updated)) ;;
  ret msgs.

(** *** POST /api/status (lines 168-184)

    The HTTP status of the response.  [body] is [req.body]; the
    destructuring of line 169 is outside the [try]. *)
Definition post_status (body : value) : M nat :=
  id <- lift (prop body "id") ;;
  let status := get body "status" in
  if negb (truthy id) || negb (truthy status) then ret 400%nat
  else
    try_catch
      (updated <- now clock ;;
       matched <- updateOne_status id status updated ;;
       if (0 <? matched)%nat then ret 200%nat else ret 404%nat)
      (ret 500%nat).
End Queries.

End Server.

(* ===================================================================== *)
(** ** The items of a payload

    The traversal of a payload does not depend on the collection: it comes
    down to a sequence of message and status items, taken in the order the
    loops of [process_payloads.js] reach them, cut short where the
    traversal throws. *)
(* ===================================================================== *)

Module Resolver.
Import JS Mongo Effects Ingest.
Local Open Scope monad_scope.

Inductive item : Type :=
| MessageItem (doc : fields value)
| StatusItem (id status : value).

(** The items reached, and the exception that ended the traversal. *)
Definition trace : Type := (list item * option error)%type.

Definition done : trace := ([], None).

Definition raised (e : error) : trace := ([], Some e).

Definition then_ (a b : trace) : trace :=
  match a with
  | (xs, None) => (xs ++ fst b, snd b)
  | (xs, Some e) => (xs, Some e)
  end.

Fixpoint each {X : Type} (l : list X) (f : X -> trace) : trace :=
  match l with
  | [] => done
  | x :: rest => then_ (f x) (each rest f)
  end.

Definition each_if_array (v : value) (f : value -> trace) : trace :=
  match as_array v with
  | Some items => each items f
  | None => done
  end.

Definition message_item (make : value -> Date -> fields value) (m : value)
    : trace :=
  match prop m "from" with
  | Ok _ => ([MessageItem (make m InvalidDate)], None)
  | Throw e => raised e
  end.

Definition status_item (s : value) : trace :=
  match prop s "id" with
  | Ok s_id =>
      ([StatusItem (or_else s_id (get s "meta_msg_id")) (get s "status")], None)
  | Throw e => raised e
  end.

Definition change_items (change : value) : trace :=
  match prop change "value" with
  | Ok v =>
      let value := or_else v (VObj []) in
      then_ (each_if_array (get value "messages")
               (message_item (envelope_doc value)))
            (each_if_array (get value "statuses") status_item)
  | Throw e => raised e
  end.

Definition entry_items (entry : value) : trace :=
  match prop entry "changes" with
  | Ok changes =>
      match iterate (or_else changes (VArr [])) with
      | Ok items => each items change_items
      | Throw e => raised e
      end
  | Throw e => raised e
  end.

Section Items.
Variable BUSINESS_NUMBER : option string.
Variable clock : nat -> Z.

Definition payload_items (payload : value) : trace :=
  match prop payload "metaData" with
  | Ok metaData =>
      let payload_entry := get payload "entry" in
      let entries :=
        or_else (oget metaData "entry")
          (if truthy payload_entry then payload_entry else VNull) in
      match as_array entries with
      | Some es => each es entry_items
      | None =>
          then_ (each_if_array (get payload "messages")
                   (message_item (fallback_doc BUSINESS_NUMBER)))
                (each_if_array (get payload "statuses") status_item)
      end
  | Throw e => raised e
  end.

Definition set_createdAt (t : Date) (d : fields value) : fields value :=
  mkFields (wa_id d) (from d) (to d) (msg_id d) (meta_msg_id d)
    (direction d) (text d) (status d) (timestamp d) t.

(** What the loops do at an item. *)
Definition exec_item (it : item) : M unit :=
  match it with
  | MessageItem doc =>
      created <- now clock ;;
      updated <- now clock ;;
      _ <- updateOne_upsert (set_createdAt created doc) updated ;;
      ret tt
  | StatusItem id status =>
      updated <- now clock ;;
      _ <- updateOne_status id status updated ;;
      ret tt
  end.

Definition exec_items (items : list item) : M unit :=
  for_each items exec_item.

Definition exec_trace (t : trace) : M unit :=
  exec_items (fst t) ;;
  match snd t with
  | None => ret tt
  | Some e => throw e
  end.
End Items.

(** The payload takes the fallback branch: its messages and statuses sit at
    the top level. *)
Definition flat (payload : value) : Prop :=
  exists metaData,
    prop payload "metaData" = Ok metaData /\
    as_array
      (or_else (oget metaData "entry")
         (if truthy (get payload "entry") then get payload "entry" else VNull))
    = None.

Definition is_message (it : item) : bool :=
  match it with MessageItem _ => true | StatusItem _ _ => false end.

(** No status item comes before a message item. *)
Fixpoint messages_first (items : list item) : bool :=
  match items with
  | [] => true
  | MessageItem _ :: rest => messages_first rest
  | StatusItem _ _ :: rest => forallb (fun it => negb (is_message it)) rest
  end.

End Resolver.

(* ===================================================================== *)
(** ** Vocabulary of the properties *)
(* ===================================================================== *)

Module Spec.
Import JS Mongo Effects Resolver.

(** Two states of a document that differ at most in [updatedAt]. *)
Definition same_except_updatedAt (d d' : doc) : Prop :=
  _id d = _id d' /\ content d = content d'.

(** Two states of a document that differ at most in [status] and
    [updatedAt]. *)
Definition same_except_status (d d' : doc) : Prop :=
  _id d = _id d' /\
  wa_id (content d) = wa_id (content d') /\
  from (content d) = from (content d') /\
  to (content d) = to (content d') /\
  msg_id (content d) = msg_id (content d') /\
  meta_msg_id (content d) = meta_msg_id (content d') /\
  direction (content d) = direction (content d') /\
  text (content d) = text (content d') /\
  timestamp (content d) = timestamp (content d') /\
  createdAt (content d) = createdAt (content d').

Definition present (f : bson) : bool :=
  match f with BMissing => false | _ => true end.

(** The keys of a document in the unique sparse index on [msg_id]. *)
Definition msg_keys (d : doc) : list bson := index_keys (msg_id (content d)).

Definition shares_key (d d' : doc) : Prop :=
  exists k, In k (msg_keys d) /\ In k (msg_keys d').

(** At most one document per [msg_id]: no two documents of the collection
    have a key of the index in common. *)
Definition unique_msg_id (c : collection) : Prop :=
  ForallOrdPairs (fun d d' => ~ shares_key d d') c.

(** No document is selected by [{ $or: [{ msg_id: q }, { meta_msg_id: q }] }]. *)
Definition orphan (q : bson) (c : collection) : Prop :=
  forall d, In d c -> by_either_id q d = false.

(** An item the store can take. *)
Definition supported (it : item) : Prop :=
  match it with
  | MessageItem d => exists f, serialize d = Some f
  | StatusItem id st => exists q s, to_bson id = Some q /\ to_bson st = Some s
  end.

(** The message item finds a document with its [msg_id]. *)
Definition covered (c : collection) (it : item) : Prop :=
  match it with
  | MessageItem d =>
      exists f, serialize d = Some f /\ existsb (by_msg_id (msg_id f)) c = true
  | StatusItem _ _ => True
  end.

(** [grown c c']: [c'] holds the documents of [c], in the same places and
    changed at most in [status] and [updatedAt], followed by new ones. *)
Definition grown (c c' : collection) : Prop :=
  exists kept added, c' = kept ++ added /\ Forall2 same_except_status c kept.

(** A status patch as the store receives it: the id, the status and the
    time of the update. *)
Definition patch : Type := (bson * bson * Date)%type.

Definition patch_id (p : patch) : bson := fst (fst p).
Definition patch_status (p : patch) : bson := snd (fst p).
Definition patch_time (p : patch) : Date := snd p.

Definition apply_patch (p : patch) (c : collection) : collection :=
  fst (updateOne (by_either_id (patch_id p))
         (set_status (patch_status p) (patch_time p)) c).

Definition apply_patches (ps : list patch) (c : collection) : collection :=
  fold_left (fun c p => apply_patch p c) ps c.

(** The patches of [ps] all applied to one document. *)
Definition apply_to_doc (ps : list patch) (d : doc) : doc :=
  fold_left (fun d p => set_status (patch_status p) (patch_time p) d) ps d.

Definition selects (d : doc) (p : patch) : bool := by_either_id (patch_id p) d.

Definition skips (d : doc) (p : patch) : bool := negb (selects d p).

(** The status the last patch of a list sets. *)
Fixpoint last_status (ps : list patch) : option bson :=
  match ps with
  | [] => None
  | p :: rest =>
      match last_status rest with
      | Some s => Some s
      | None => Some (patch_status p)
      end
  end.

Definition with_status (s : option bson) (f : fields bson) : fields bson :=
  match s with
  | Some st =>
      mkFields (wa_id f) (from f) (to f) (msg_id f) (meta_msg_id f)
        (direction f) (text f) st (timestamp f) (createdAt f)
  | None => f
  end.

(** Two patches with the same id and status, sent at different times. *)
Definition same_patch (p p' : patch) : Prop :=
  patch_id p = patch_id p' /\ patch_status p = patch_status p'.

(** The patch a status item sends. *)
Definition patch_of (it : item) (p : patch) : Prop :=
  match it with
  | StatusItem id st =>
      to_bson id = Some (patch_id p) /\ to_bson st = Some (patch_status p)
  | MessageItem _ => False
  end.

(** A builder of [doc] uses the time of creation for [createdAt] only. *)
Definition builder (make : value -> Date -> fields value) : Prop :=
  forall m t, make m t = set_createdAt t (make m InvalidDate).

(** The status enum of the data model. *)
Definition documented_statuses : list bson :=
  [BStr "received"; BStr "sent"; BStr "delivered"; BStr "read"].

(** The field is the string [s], or an array with the element [s]: what
    the query [{ field: s }] selects. *)
Definition holds (s : string) (f : bson) : Prop :=
  f = BStr s \/ exists items, f = BArr items /\ In (BStr s) items.


(** The document [d] with [createdAt] replaced by [g d]. *)
Definition recreated (g : doc -> Date) (d : doc) : doc :=
  mkDoc (_id d) (created_at (g d) (content d)) (updatedAt d).

End Spec.

(* ===================================================================== *)
(** ** Sample payloads and collections *)
(* ===================================================================== *)

Module Examples.
Import JS Mongo Effects.

(** A clock that shows [n] at its [n]-th reading. *)
Definition tick_clock (n : nat) : Z := Z.of_nat n.

Definition empty_world : world := mkWorld [] 0 0.

(** [{id:"m1", from:"111", timestamp:"1000", text:{body:"hi"}}] *)
Definition m1 : value :=
  VObj [("id", VStr "m1"); ("from", VStr "111"); ("timestamp", VStr "1000");
        ("text", VObj [("body", VStr "hi")])].

(** [{id:"m1", status:"read"}] *)
Definition m1_read : value := VObj [("id", VStr "m1"); ("status", VStr "read")].

(** [{messages:[m1]}] *)
Definition flat_m1 : value := VObj [("messages", VArr [m1])].

(** [{entry:[{changes:[{value:{statuses:[m1_read]}},
                        {value:{messages:[m1]}}]}]}]: the status of [m1]
    comes in a change before the one that holds [m1]. *)
Definition status_then_message : value :=
  VObj [("entry", VArr [VObj [("changes", VArr [
    VObj [("value", VObj [("statuses", VArr [m1_read])])];
    VObj [("value", VObj [("messages", VArr [m1])])]])]])].

(** A message from ["biz"] inside an envelope whose [phone_number_id] is
    ["999"]. *)
Definition m2_from_biz : value :=
  VObj [("id", VStr "m2"); ("from", VStr "biz"); ("timestamp", VStr "1000")].

Definition envelope_999 : value :=
  VObj [("metadata", VObj [("phone_number_id", VStr "999")]);
        ("messages", VArr [m2_from_biz])].

Definition envelope_from_biz : value :=
  VObj [("entry", VArr [VObj [("changes", VArr [
    VObj [("value", envelope_999)]])]])].


(** The collection after [flat_m1] was ingested into the empty one, with
    [tick_clock]. *)
Definition m1_record : doc :=
  mkDoc 0
    (mkFields (BStr "111") (BStr "111") (BStr "") (BStr "m1") BNull
       (BStr "inbound") (BStr "hi") (BStr "received") (DateAt 1000000) (DateAt 0))
    (DateAt 1).

Definition m1_stored : world := mkWorld [m1_record] 1 2.

(** [{id:"m9", status:"read"}]: no document has this id. *)
Definition m9_read : value := VObj [("id", VStr "m9"); ("status", VStr "read")].


(** [{status:"read"}]: neither [id] nor [meta_msg_id]. *)
Definition no_id_read : value := VObj [("status", VStr "read")].

(** [{id:"m1", status:"banana"}] *)
Definition m1_banana : value := VObj [("id", VStr "m1"); ("status", VStr "banana")].

(** Two messages of one conversation in the same second:
    [{messages:[{id:"a1",from:"111",timestamp:"1000",text:{body:"first"}},
                {id:"a2",from:"111",timestamp:"1000",text:{body:"second"}}]}] *)
Definition same_second : value :=
  VObj [("messages", VArr [
    VObj [("id", VStr "a1"); ("from", VStr "111"); ("timestamp", VStr "1000");
          ("text", VObj [("body", VStr "first")])];
    VObj [("id", VStr "a2"); ("from", VStr "111"); ("timestamp", VStr "1000");
          ("text", VObj [("body", VStr "second")])]])].

Definition a1_record : doc :=
  mkDoc 0
    (mkFields (BStr "111") (BStr "111") (BStr "") (BStr "a1") BNull
       (BStr "inbound") (BStr "first") (BStr "received") (DateAt 1000000) (DateAt 0))
    (DateAt 1).

Definition a2_record : doc :=
  mkDoc 1
    (mkFields (BStr "111") (BStr "111") (BStr "") (BStr "a2") BNull
       (BStr "inbound") (BStr "second") (BStr "received") (DateAt 1000000) (DateAt 2))
    (DateAt 3).


(** [{wa_id:"111", text:"hello"}] *)
Definition hello_to_111 : value := VObj [("wa_id", VStr "111"); ("text", VStr "hello")].

End Examples.

(* ===================================================================== *)
(** ** server.js: the routes that insert *)
(* ===================================================================== *)

Module Writes.
Import JS Mongo Effects Ingest Server.
Local Open Scope monad_scope.

(** [String(n)] for an integer. *)
Definition to_decimal (n : Z) : string := NilZero.string_of_int (Z.to_int n).

(** [genLocalMsgId] (lines 77-79), from the value of [Date.now()] and the
    value of [Math.floor(Math.random()*1000)]. *)
Definition genLocalMsgId (ms rnd : Z) : string :=
  "local-" ++ to_decimal ms ++ "-" ++ to_decimal rnd.

(** The unique sparse index on [msg_id]: a document is refused when a
    stored document has one of its keys. *)
Definition duplicate_key (f : fields bson) (c : collection) : bool :=
  existsb
    (fun d =>
       existsb (fun k => existsb (bson_eqb k) (index_keys (msg_id (content d))))
         (index_keys (msg_id f)))
    c.

(** [col.insertOne(doc)], [doc] holding [updatedAt] too: the [_id] of the
    inserted document; the call is rejected when the unique index refuses
    the document. *)
Definition insertOne (doc : fields value) (updatedAt : Date) : M nat :=
  fun w =>
    match serialize doc with
    | None => (w, Throw Unsupported)
    | Some f =>
        if duplicate_key f (col w) then (w, Throw MongoError)
        else (mkWorld (col w ++ [mkDoc (next_oid w) f (stored_date updatedAt)])
                (S (next_oid w)) (ticks w),
              Ok (next_oid w))
    end.

Section Routes.
Variable BUSINESS_NUMBER : option string.
Variable clock : nat -> Z.

(** [Date.now()] *)
Definition date_now : M Z :=
  fun w => (mkWorld (col w) (next_oid w) (S (ticks w)), Ok (clock (ticks w))).

(** [process.env.BUSINESS_NUMBER || 'me'] *)
Definition business_or_me : value := or_else (env BUSINESS_NUMBER) (VStr "me").

(** The object literal [doc] of POST /api/send (lines 145-157), without its
    [updatedAt]. *)
Definition send_doc (wa_id text : value) (ms rnd : Z) (timestamp created : Date)
    : fields value :=
  {| Mongo.wa_id := wa_id;
     from := business_or_me;
     to := wa_id;
     msg_id := VStr (genLocalMsgId ms rnd);
     meta_msg_id := VNull;
     direction := VStr "outbound";
     Mongo.text := text;
     status := VStr "sent";
     Mongo.timestamp := timestamp;
     createdAt := created |}.

(** POST /api/send (lines 141-165): the HTTP status of the response.
    [body] is [req.body], [rnd] what [Math.floor(Math.random()*1000)]
    gives; the destructuring of line 142 is outside the [try]. *)
Definition send (rnd : Z) (body : value) : M nat :=
  wa_id <- lift (prop body "wa_id") ;;
  let text := get body "text" in
  if negb (truthy wa_id) || negb (truthy text) then ret 400%nat
  else
    try_catch
      (ms <- date_now ;;
       timestamp <- now clock ;;
       created <- now clock ;;
       updated <- now clock ;;
       _ <- insertOne (send_doc wa_id text ms rnd timestamp created) updated ;;
       ret 201%nat)
      (ret 500%nat).

(** The object literal [doc] of GET /api/test-message (lines 191-203),
    without its [updatedAt]. *)
Definition test_doc (wa_id text : value) (ms rnd : Z) (timestamp created : Date)
    : fields value :=
  {| Mongo.wa_id := wa_id;
     from := wa_id;
     to := business_or_me;
     msg_id := VStr (genLocalMsgId ms rnd);
     meta_msg_id := VNull;
     direction := VStr "inbound";
     Mongo.text := text;
     status := VStr "received";
     Mongo.timestamp := timestamp;
     createdAt := created |}.

(** GET /api/test-message (lines 187-210).  [query] is [req.query]. *)
Definition test_message (rnd : Z) (query : value) : M nat :=
  let wa_id :=
    or_else (get query "wa_id")
      (or_else (env BUSINESS_NUMBER) (VStr "919937320320")) in
  let text := or_else (get query "text") (VStr "Test inbound message") in
  try_catch
    (ms <- date_now ;;
     timestamp <- now clock ;;
     created <- now clock ;;
     updated <- now clock ;;
     _ <- insertOne (test_doc wa_id text ms rnd timestamp created) updated ;;
     ret 200%nat)
    (ret 500%nat).
End Routes.

(** The listener called on the changes of the feed, one after the other. *)
Fixpoint deliver_all (feed : list change) (io : sockets) : result sockets :=
  match feed with
  | [] => Ok io
  | ch :: rest =>
      match deliver ch io with
      | Ok io' => deliver_all rest io'
      | Throw e => Throw e
      end
  end.

End Writes.

(* ===================================================================== *)
(** ** Vocabulary of the further properties *)
(* ===================================================================== *)

Module Further.
Import JS Mongo Effects Ingest Server Writes Resolver Spec.

(** The items of a file, and of a run over files. *)
Definition file_items (BUSINESS_NUMBER : option string) (parsed : option value)
    : trace :=
  match parsed with
  | None => done
  | Some v => each_if_array v (payload_items BUSINESS_NUMBER)
  end.

Definition run_items (BUSINESS_NUMBER : option string)
    (files : list (option value)) : trace :=
  each files (file_items BUSINESS_NUMBER).

(** The file parses, to an array. *)
Definition holds_array (parsed : option value) : bool :=
  match parsed with
  | Some (VArr _) => true
  | _ => false
  end.

(** The number a sequence of decimal digits stands for, read after [acc]. *)
Fixpoint digits_value (d : Decimal.uint) (acc : Z) : Z :=
  match d with
  | Decimal.Nil => acc
  | Decimal.D0 l => digits_value l (acc * 10 + 0)
  | Decimal.D1 l => digits_value l (acc * 10 + 1)
  | Decimal.D2 l => digits_value l (acc * 10 + 2)
  | Decimal.D3 l => digits_value l (acc * 10 + 3)
  | Decimal.D4 l => digits_value l (acc * 10 + 4)
  | Decimal.D5 l => digits_value l (acc * 10 + 5)
  | Decimal.D6 l => digits_value l (acc * 10 + 6)
  | Decimal.D7 l => digits_value l (acc * 10 + 7)
  | Decimal.D8 l => digits_value l (acc * 10 + 8)
  | Decimal.D9 l => digits_value l (acc * 10 + 9)
  end.

(** The string has no ['-']. *)
Fixpoint no_dash (s : string) : bool :=
  match s with
  | EmptyString => true
  | String c rest => negb (Ascii.eqb c "-") && no_dash rest
  end.

(** The document belongs to the conversation [k]. *)
Definition in_group (k : bson) (d : doc) : bool := bson_eqb (group_key d) k.

(** The document is inbound and not read. *)
Definition is_unread (d : doc) : bool :=
  bson_eqb (field_value (direction (content d))) (BStr "inbound")
  && negb (bson_eqb (field_value (status (content d))) (BStr "read")).

(** How many documents of the conversation [k] are inbound and not read. *)
Definition unread_in (k : bson) (c : list doc) : nat :=
  List.length (filter (fun d => in_group k d && is_unread d) c).



(** [a] comes before [b] in the order of the chat list. *)
Definition chat_before (invalid_time : Z) (a b : Chat.t) : Prop :=
  time_of invalid_time (Chat.lastTimestamp b)
  <= time_of invalid_time (Chat.lastTimestamp a).

(** [a] comes before [b] in the order of GET /api/messages/:wa_id. *)
Definition message_before (invalid_time : Z) (a b : doc) : Prop :=
  time_of invalid_time (timestamp (content a))
  < time_of invalid_time (timestamp (content b))
  \/ (time_of invalid_time (timestamp (content a))
      = time_of invalid_time (timestamp (content b))
      /\ time_of invalid_time (createdAt (content a))
         <= time_of invalid_time (createdAt (content b))).

(** The events the listener emits on a feed whose changes all carry their
    document. *)
Definition events_of (feed : list change) : list event :=
  flat_map (fun ch => match on_change ch with Ok es => es | Throw _ => [] end) feed.

(** [a] comes before [b] after [{ $sort: { timestamp: -1 } }]. *)
Definition newer_first (invalid_time : Z) (a b : doc) : Prop :=
  time_of invalid_time (timestamp (content b))
  <= time_of invalid_time (timestamp (content a)).

(** The summary [g] is the one of its conversation among the documents
    [input], taken in this order: its [$first] fields come from the first
    document of the conversation, its count is the number of unread ones. *)
Definition summarizes (input : list doc) (g : Chat.t) : Prop :=
  exists d,
    List.find (in_group (Chat._id g)) input = Some d /\
    Chat.wa_id g = field_value (wa_id (content d)) /\
    Chat.name g = field_value (from (content d)) /\
    Chat.lastMessage g = field_value (text (content d)) /\
    Chat.lastTimestamp g = timestamp (content d) /\
    Chat.unreadCount g = unread_in (Chat._id g) input.

End Further.

(* ===================================================================== *)
(** ** Computations and traces *)
(* ===================================================================== *)

Module TraceFacts.
Import JS Mongo Effects Ingest Resolver.
Local Open Scope monad_scope.

Lemma equiv_refl {A : Type} (m : M A) : m == m.
Proof. intro w; reflexivity. Qed.

Lemma equiv_trans {A : Type} (m1 m2 m3 : M A) :
  m1 == m2 -> m2 == m3 -> m1 == m3.
Proof. intros H1 H2 w. rewrite H1. apply H2. Qed.

Lemma bind_cong {A B : Type} (m m' : M A) (k k' : A -> M B) :
  m == m' -> (forall a, k a == k' a) -> bind m k == bind m' k'.
Proof.
  intros Hm Hk w. unfold bind. rewrite Hm.
  destruct (m' w) as [w' [a | e]]; [apply Hk | reflexivity].
Qed.

Lemma bind_assoc {A B C : Type} (m : M A) (k : A -> M B) (h : B -> M C) :
  bind (bind m k) h == bind m (fun a => bind (k a) h).
Proof.
  intro w. unfold bind. destruct (m w) as [w' [a | e]]; reflexivity.
Qed.

Lemma bind_ret_l {A B : Type} (a : A) (k : A -> M B) : bind (ret a) k == k a.
Proof. intro w; reflexivity. Qed.

Lemma for_each_app {X : Type} (l1 l2 : list X) (body : X -> M unit) :
  for_each (l1 ++ l2) body == bind (for_each l1 body) (fun _ => for_each l2 body).
Proof.
  induction l1 as [| x l1 IH]; simpl.
  - intro w; reflexivity.
  - eapply equiv_trans; [| intro w; symmetry; apply bind_assoc].
    apply bind_cong; [apply equiv_refl | intros _; exact IH].
Qed.

Section Traces.
Variable BUSINESS_NUMBER : option string.
Variable clock : nat -> Z.

Lemma exec_trace_then (a b : trace) :
  exec_trace clock (then_ a b) == bind (exec_trace clock a) (fun _ => exec_trace clock b).
Proof.
  destruct a as [xs [e |]]; destruct b as [ys tl];
    unfold exec_trace, exec_items; simpl.
  - intro w. unfold bind.
    destruct (for_each xs (exec_item clock) w) as [w' [[] | e']]; reflexivity.
  - eapply equiv_trans.
    { apply bind_cong; [apply for_each_app | intros a; apply equiv_refl]. }
    eapply equiv_trans; [apply bind_assoc |].
    intro w. unfold bind.
    destruct (for_each xs (exec_item clock) w) as [w' [[] | e']]; reflexivity.
Qed.

Lemma for_each_trace {X : Type} (l : list X) (body : X -> M unit)
    (f : X -> trace) :
  (forall x, body x == exec_trace clock (f x)) ->
  for_each l body == exec_trace clock (each l f).
Proof.
  intro H. induction l as [| x l IH]; simpl.
  - intro w; reflexivity.
  - eapply equiv_trans; [| intro w; symmetry; apply exec_trace_then].
    apply bind_cong; [apply H | intros _; exact IH].
Qed.

Lemma if_array_trace (v : value) (body : value -> M unit)
    (f : value -> trace) :
  (forall x, body x == exec_trace clock (f x)) ->
  if_array v body == exec_trace clock (each_if_array v f).
Proof.
  intro H. unfold if_array, each_if_array.
  destruct (as_array v); [apply for_each_trace; exact H | intro w; reflexivity].
Qed.

Lemma process_message_trace (make : value -> Date -> fields value) (m : value) :
  (forall t, make m t = set_createdAt t (make m InvalidDate)) ->
  process_message clock make m == exec_trace clock (message_item make m).
Proof.
  intros Hmake w. unfold process_message, message_item.
  destruct (prop m "from") as [v | e]; [| reflexivity].
  unfold exec_trace, exec_items; simpl.
  unfold bind; simpl.
  rewrite <- Hmake.
  destruct (updateOne_upsert _ _ _) as [w' [b | e]]; reflexivity.
Qed.

Lemma process_status_trace (s : value) :
  process_status clock s == exec_trace clock (status_item s).
Proof.
  intro w. unfold process_status, status_item.
  destruct (prop s "id") as [v | e]; [| reflexivity].
  unfold exec_trace, exec_items; simpl.
  unfold bind; simpl.
  destruct (updateOne_status _ _ _ _) as [w' [b | e]]; reflexivity.
Qed.

Lemma process_change_trace (change : value) :
  process_change clock change == exec_trace clock (change_items change).
Proof.
  unfold process_change, change_items.
  destruct (prop change "value") as [v | e]; simpl.
  - eapply equiv_trans; [apply bind_ret_l |].
    eapply equiv_trans; [| intro w; symmetry; apply exec_trace_then].
    apply bind_cong.
    + apply if_array_trace. intro m. apply process_message_trace.
      intro t; reflexivity.
    + intros _. apply if_array_trace. apply process_status_trace.
  - intro w; reflexivity.
Qed.

Lemma process_entry_trace (entry : value) :
  process_entry clock entry == exec_trace clock (entry_items entry).
Proof.
  unfold process_entry, entry_items.
  destruct (prop entry "changes") as [changes | e]; simpl.
  - eapply equiv_trans; [apply bind_ret_l |].
    destruct (iterate (or_else changes (VArr []))) as [items | e]; simpl.
    + eapply equiv_trans; [apply bind_ret_l |].
      apply for_each_trace. apply process_change_trace.
    + intro w; reflexivity.
  - intro w; reflexivity.
Qed.

(** The loops of [process_payload] do what executing its items does. *)
Lemma process_payload_trace (payload : value) :
  process_payload BUSINESS_NUMBER clock payload
  == exec_trace clock (payload_items BUSINESS_NUMBER payload).
Proof.
  unfold process_payload, payload_items.
  destruct (prop payload "metaData") as [metaData | e]; simpl.
  - eapply equiv_trans; [apply bind_ret_l |].
    destruct (as_array _) as [es |].
    + apply for_each_trace. apply process_entry_trace.
    + eapply equiv_trans; [| intro w; symmetry; apply exec_trace_then].
      apply bind_cong.
      * apply if_array_trace. intro m. apply process_message_trace.
        intro t; reflexivity.
      * intros _. apply if_array_trace. apply process_status_trace.
  - intro w; reflexivity.
Qed.
End Traces.

End TraceFacts.

(* ===================================================================== *)
(** ** Facts on the collection operations *)
(* ===================================================================== *)

Module StoreFacts.
Import JS Mongo Effects Spec.

(** Induction on a value, with the property at hand for the elements of an
    array. *)
Lemma bson_nested_ind (P : bson -> Prop) :
  P BMissing -> P BNull -> (forall b, P (BBool b)) -> (forall n, P (BNum n)) ->
  (forall s, P (BStr s)) -> (forall items, Forall P items -> P (BArr items)) ->
  forall f, P f.
Proof.
  intros H1 H2 H3 H4 H5 H6. fix IH 1.
  intros [ | | b | n | s | items];
    [exact H1 | exact H2 | apply H3 | apply H4 | apply H5 |].
  apply H6. induction items as [| x items IHitems]; constructor;
    [apply IH | exact IHitems].
Qed.

Lemma bson_eqb_eq (a b : bson) : bson_eqb a b = true <-> a = b.
Proof.
  revert b. induction a as [ | | x | x | x | xs IH] using bson_nested_ind;
    intros [ | | y | y | y | ys]; simpl; split; intro H;
    try congruence; try reflexivity.
  - apply Bool.eqb_prop in H; congruence.
  - injection H as ->. apply Bool.eqb_reflx.
  - apply Z.eqb_eq in H; congruence.
  - injection H as ->. apply Z.eqb_refl.
  - apply String.eqb_eq in H; congruence.
  - injection H as ->. apply String.eqb_refl.
  - f_equal. revert ys H. induction IH as [| x xs Hx _ IHxs]; intros [| y ys] H;
      try discriminate; [reflexivity |].
    apply andb_true_iff in H. destruct H as [E1 E2].
    apply Hx in E1. apply IHxs in E2. congruence.
  - injection H as <-. induction IH as [| x xs Hx _ IHxs]; [reflexivity |].
    apply andb_true_iff. split; [apply Hx; reflexivity | exact IHxs].
Qed.

Lemma bson_eqb_refl (a : bson) : bson_eqb a a = true.
Proof. apply bson_eqb_eq; reflexivity. Qed.

Lemma field_matches_refl (q : bson) : present q = true -> field_matches q q = true.
Proof.
  intro H. unfold field_matches.
  destruct q; try reflexivity; try discriminate; rewrite bson_eqb_refl; reflexivity.
Qed.

Lemma to_bson_present (v : value) (q : bson) : to_bson v = Some q -> present q = true.
Proof.
  destruct v; simpl; intro H; try (inversion H; reflexivity).
  match type of H with
  | option_map _ ?o = _ => destruct o; inversion H; reflexivity
  end.
Qed.

Lemma existsb_eqb (q : bson) (items : list bson) :
  existsb (bson_eqb q) items = true <-> In q items.
Proof.
  rewrite existsb_exists. split.
  - intros [x [Hin E]]. apply bson_eqb_eq in E. congruence.
  - intro Hin. exists q. split; [exact Hin | apply bson_eqb_refl].
Qed.

(** A query for [q] selects the fields that are [q] and the arrays that
    have [q] as an element; null also selects a missing field. *)
Lemma field_matches_iff (q f : bson) :
  field_matches q f = true <->
  f = q \/ In q (elements f) \/ (q = BNull /\ f = BMissing).
Proof.
  unfold field_matches. destruct q.
  - rewrite orb_true_iff, bson_eqb_eq, existsb_eqb.
    intuition congruence.
  - destruct f; simpl; try (intuition congruence).
    rewrite (existsb_eqb BNull items). intuition congruence.
  - rewrite orb_true_iff, bson_eqb_eq, existsb_eqb. intuition congruence.
  - rewrite orb_true_iff, bson_eqb_eq, existsb_eqb. intuition congruence.
  - rewrite orb_true_iff, bson_eqb_eq, existsb_eqb. intuition congruence.
  - rewrite orb_true_iff, bson_eqb_eq, existsb_eqb. intuition congruence.
Qed.

(** A string query selects exactly the documents whose field holds this
    string. *)
Lemma field_matches_string (s : string) (f : bson) :
  field_matches (BStr s) f = true <-> holds s f.
Proof.
  rewrite field_matches_iff. unfold holds. split.
  - intros [-> | [H | [H _]]]; [left; reflexivity | | discriminate].
    right. destruct f; simpl in H; try contradiction.
    exists items. split; [reflexivity | exact H].
  - intros [-> | [items [-> H]]]; [left; reflexivity | right; left; exact H].
Qed.

Lemma serialize_all (d : fields value) (f : fields bson) :
  serialize d = Some f ->
  to_bson (wa_id d) = Some (wa_id f) /\
  to_bson (from d) = Some (from f) /\
  to_bson (to d) = Some (to f) /\
  to_bson (msg_id d) = Some (msg_id f) /\
  to_bson (meta_msg_id d) = Some (meta_msg_id f) /\
  to_bson (direction d) = Some (direction f) /\
  to_bson (text d) = Some (text f) /\
  to_bson (status d) = Some (status f) /\
  timestamp f = stored_date (timestamp d) /\
  createdAt f = stored_date (createdAt d) /\
  is_array (msg_id f) = false.
Proof.
  unfold serialize.
  destruct (to_bson (wa_id d)), (to_bson (from d)), (to_bson (to d)),
    (to_bson (msg_id d)) as [i |], (to_bson (meta_msg_id d)),
    (to_bson (direction d)), (to_bson (text d)), (to_bson (status d));
    try discriminate.
  destruct (is_array i) eqn:A; intro H; inversion H; simpl.
  repeat split. exact A.
Qed.

Lemma serialize_msg_id (d : fields value) (f : fields bson) :
  serialize d = Some f -> to_bson (msg_id d) = Some (msg_id f).
Proof. intro H. apply (serialize_all d f H). Qed.

(** *** The two relations between states of a document *)

Lemma seu_refl (d : doc) : same_except_updatedAt d d.
Proof. split; reflexivity. Qed.

Lemma seu_trans (a b c : doc) :
  same_except_updatedAt a b -> same_except_updatedAt b c -> same_except_updatedAt a c.
Proof. intros [H1 H2] [H3 H4]; split; congruence. Qed.

Lemma ses_refl (d : doc) : same_except_status d d.
Proof. repeat split. Qed.

Lemma ses_trans (a b c : doc) :
  same_except_status a b -> same_except_status b c -> same_except_status a c.
Proof. unfold same_except_status. intuition congruence. Qed.

Lemma seu_ses (d d' : doc) : same_except_updatedAt d d' -> same_except_status d d'.
Proof. intros [H1 H2]. unfold same_except_status. rewrite H1, H2. repeat split. Qed.

Lemma set_updatedAt_seu (t : Date) (d : doc) : same_except_updatedAt d (set_updatedAt t d).
Proof. split; reflexivity. Qed.

Lemma set_status_ses (st : bson) (t : Date) (d : doc) :
  same_except_status d (set_status st t d).
Proof. repeat split. Qed.

Lemma ses_by_msg_id (q : bson) (d d' : doc) :
  same_except_status d d' -> by_msg_id q d = by_msg_id q d'.
Proof. unfold same_except_status, by_msg_id. intros H. decompose [and] H. congruence. Qed.

Lemma ses_by_either_id (q : bson) (d d' : doc) :
  same_except_status d d' -> by_either_id q d = by_either_id q d'.
Proof. unfold same_except_status, by_either_id. intros H. decompose [and] H. congruence. Qed.

Section Lifted.
Context {A : Type} (R : A -> A -> Prop).

Lemma all2_refl : (forall x, R x x) -> forall l, Forall2 R l l.
Proof. intros H l; induction l; constructor; auto. Qed.

Lemma all2_trans : (forall x y z, R x y -> R y z -> R x z) ->
  forall l1 l2 l3, Forall2 R l1 l2 -> Forall2 R l2 l3 -> Forall2 R l1 l3.
Proof.
  intros H l1 l2 l3 F; revert l3.
  induction F; intros l3 G; inversion G; subst; constructor; eauto.
Qed.

Lemma all2_weaken (R' : A -> A -> Prop) : (forall x y, R x y -> R' x y) ->
  forall l l', Forall2 R l l' -> Forall2 R' l l'.
Proof. intros H l l' F; induction F; constructor; auto. Qed.
End Lifted.

Lemma all2_length {A : Type} (R : A -> A -> Prop) (l l' : list A) :
  Forall2 R l l' -> List.length l = List.length l'.
Proof. intro F; induction F; simpl; congruence. Qed.

(** *** updateOne and updateMany *)

Lemma updateOne_related (R : doc -> doc -> Prop) (filter : doc -> bool)
    (update : doc -> doc) :
  (forall d, R d d) -> (forall d, filter d = true -> R d (update d)) ->
  forall c, Forall2 R c (fst (updateOne filter update c)).
Proof.
  intros Hrefl Hupd c. induction c as [| d c IH]; simpl.
  - constructor.
  - destruct (filter d) eqn:E; simpl.
    + constructor; [apply Hupd; exact E | apply all2_refl; exact Hrefl].
    + destruct (updateOne filter update c) as [c' n]; simpl in *.
      constructor; [apply Hrefl | exact IH].
Qed.

Lemma updateOne_none (filter : doc -> bool) (update : doc -> doc) (c : collection) :
  (forall d, In d c -> filter d = false) -> updateOne filter update c = (c, 0%nat).
Proof.
  induction c as [| d c IH]; simpl; intro H.
  - reflexivity.
  - rewrite (H d (or_introl eq_refl)). rewrite IH by (intros; apply H; right; assumption).
    reflexivity.
Qed.

(** The first selected document is updated, the others are left alone. *)
Lemma updateOne_first (filter : doc -> bool) (update : doc -> doc)
    (before : collection) (d : doc) (after : collection) :
  (forall x, In x before -> filter x = false) -> filter d = true ->
  updateOne filter update (before ++ d :: after) = (before ++ update d :: after, 1%nat).
Proof.
  intros Hb Hd. induction before as [| x before IH]; simpl.
  - rewrite Hd. reflexivity.
  - rewrite (Hb x (or_introl eq_refl)).
    rewrite IH by (intros; apply Hb; right; assumption). reflexivity.
Qed.

Lemma updateMany_related (R : doc -> doc -> Prop) (filter : doc -> bool)
    (update : doc -> doc) :
  (forall d, R d d) -> (forall d, filter d = true -> R d (update d)) ->
  forall c, Forall2 R c (fst (updateMany filter update c)).
Proof.
  intros Hrefl Hupd c. unfold updateMany; simpl.
  induction c as [| d c IH]; simpl; constructor; auto.
  destruct (filter d) eqn:E; auto.
Qed.

(** *** What stays of a collection through the operations *)

Lemma ses_existsb (q : bson) (c c' : collection) :
  Forall2 same_except_status c c' ->
  existsb (by_msg_id q) c = existsb (by_msg_id q) c'.
Proof.
  intro F; induction F; simpl; [reflexivity |].
  rewrite (ses_by_msg_id q x y H), IHF. reflexivity.
Qed.

Lemma ses_msg_keys (d d' : doc) : same_except_status d d' -> msg_keys d = msg_keys d'.
Proof.
  unfold same_except_status, msg_keys. intro H. decompose [and] H. congruence.
Qed.

(** The documents keep their keys, so the index stays unique. *)
Lemma ses_unique (c c' : collection) :
  Forall2 same_except_status c c' -> unique_msg_id c -> unique_msg_id c'.
Proof.
  unfold unique_msg_id. intro F. induction F as [| x y c c' Hxy F IH]; intro U.
  - constructor.
  - inversion U as [| ? ? Hx Hc]; subst. constructor; [| apply IH; exact Hc].
    clear IH U Hc. induction F as [| a b c c' Hab F IH]; [constructor |].
    inversion Hx as [| ? ? Ha Hrest]; subst. constructor; [| apply IH; exact Hrest].
    unfold shares_key in *.
    rewrite <- (ses_msg_keys x y Hxy), <- (ses_msg_keys a b Hab). exact Ha.
Qed.

(** A document none of whose keys is in the index can be added. *)
Lemma unique_snoc (c : collection) (d : doc) :
  unique_msg_id c -> (forall x, In x c -> ~ shares_key x d) ->
  unique_msg_id (c ++ [d]).
Proof.
  unfold unique_msg_id. intros U H. induction U as [| x c Hx U IH]; simpl.
  - constructor; [constructor | constructor].
  - constructor.
    + apply Forall_app. split; [exact Hx |].
      constructor; [apply H; left; reflexivity | constructor].
    + apply IH. intros y Hy. apply H. right; exact Hy.
Qed.

(** A value that is no array and that the query [{ msg_id: q }] finds in no
    document is no key of the index. *)
Lemma no_match_no_key (q : bson) (d : doc) :
  is_array q = false -> present q = true -> by_msg_id q d = false ->
  ~ In q (msg_keys d).
Proof.
  unfold by_msg_id, msg_keys. intros A P M Hin.
  assert (T : field_matches q (msg_id (content d)) = true); [| congruence].
  apply field_matches_iff.
  destruct (msg_id (content d)) as [ | | b | n | s | items]; simpl in Hin.
  - contradiction.
  - destruct Hin as [<- | []]. left; reflexivity.
  - destruct Hin as [<- | []]. left; reflexivity.
  - destruct Hin as [<- | []]. left; reflexivity.
  - destruct Hin as [<- | []]. left; reflexivity.
  - destruct items as [| x items]; simpl in Hin.
    + destruct Hin as [<- | []]. discriminate.
    + right; left. exact Hin.
Qed.

Lemma scalar_keys (q : bson) :
  is_array q = false -> present q = true -> index_keys q = [q].
Proof. destruct q; simpl; intros A P; try discriminate; reflexivity. Qed.

(** *** upsert *)

Lemma upsert_hit (q : bson) (f : fields bson) (t : Date) (oid : nat) (c : collection) :
  existsb (by_msg_id q) c = true ->
  snd (upsert q f t oid c) = false /\
  Forall2 same_except_updatedAt c (fst (upsert q f t oid c)).
Proof.
  intro H. unfold upsert. rewrite H. simpl. split; [reflexivity |].
  apply updateOne_related; [apply seu_refl | intros; apply set_updatedAt_seu].
Qed.

End StoreFacts.

(* ===================================================================== *)
(** ** Executing the items of a payload *)
(* ===================================================================== *)

Module RunFacts.
Import JS Mongo Effects Ingest Resolver Spec StoreFacts.

Lemma serialize_set_createdAt (t : Date) (d : fields value) :
  serialize (set_createdAt t d)
  = option_map (created_at (stored_date t)) (serialize d).
Proof.
  unfold serialize, set_createdAt; simpl.
  destruct (to_bson (wa_id d)), (to_bson (from d)), (to_bson (to d)),
    (to_bson (msg_id d)) as [i |], (to_bson (meta_msg_id d)),
    (to_bson (direction d)), (to_bson (text d)), (to_bson (status d));
    try reflexivity.
  destruct (is_array i); reflexivity.
Qed.

Section Exec.
Variable clock : nat -> Z.

Lemma exec_message_hit (d : fields value) (f : fields bson) (w : world) :
  serialize d = Some f -> existsb (by_msg_id (msg_id f)) (col w) = true ->
  exec_item clock (MessageItem d) w =
    (mkWorld
       (fst (updateOne (by_msg_id (msg_id f))
               (set_updatedAt (DateAt (clock (S (ticks w))))) (col w)))
       (next_oid w) (S (S (ticks w))),
     Ok tt).
Proof.
  intros Hs He. unfold exec_item, bind, now, updateOne_upsert; simpl.
  rewrite serialize_set_createdAt, Hs; simpl.
  unfold upsert. rewrite He. reflexivity.
Qed.

Lemma exec_message_miss (d : fields value) (f : fields bson) (w : world) :
  serialize d = Some f -> existsb (by_msg_id (msg_id f)) (col w) = false ->
  exec_item clock (MessageItem d) w =
    (mkWorld
       (col w ++ [mkDoc (next_oid w) (created_at (DateAt (clock (ticks w))) f)
                    (DateAt (clock (S (ticks w))))])
       (S (next_oid w)) (S (S (ticks w))),
     Ok tt).
Proof.
  intros Hs He. unfold exec_item, bind, now, updateOne_upsert; simpl.
  rewrite serialize_set_createdAt, Hs; simpl.
  unfold upsert. rewrite He. reflexivity.
Qed.

Lemma exec_message_unsupported (d : fields value) (w : world) :
  serialize d = None ->
  exec_item clock (MessageItem d) w =
    (mkWorld (col w) (next_oid w) (S (S (ticks w))), Throw Unsupported).
Proof.
  intros Hs. unfold exec_item, bind, now, updateOne_upsert; simpl.
  rewrite serialize_set_createdAt, Hs; reflexivity.
Qed.

Lemma exec_status (id st : value) (q s : bson) (w : world) :
  to_bson id = Some q -> to_bson st = Some s ->
  exec_item clock (StatusItem id st) w =
    (mkWorld
       (fst (updateOne (by_either_id q) (set_status s (DateAt (clock (ticks w))))
               (col w)))
       (next_oid w) (S (ticks w)),
     Ok tt).
Proof.
  intros Hq Hs. unfold exec_item, bind, now, updateOne_status, update; simpl.
  rewrite Hq, Hs.
  destruct (updateOne _ _ _) as [c n]; reflexivity.
Qed.

Lemma exec_status_unsupported (id st : value) (w : world) :
  to_bson id = None \/ to_bson st = None ->
  exec_item clock (StatusItem id st) w =
    (mkWorld (col w) (next_oid w) (S (ticks w)), Throw Unsupported).
Proof.
  intros H. unfold exec_item, bind, now, updateOne_status; simpl.
  destruct H as [H | H]; rewrite H; [| destruct (to_bson id)]; reflexivity.
Qed.

(** An item that ran to its end was one the store can take. *)
Lemma exec_item_ok_supported (it : item) (w w' : world) :
  exec_item clock it w = (w', Ok tt) -> supported it.
Proof.
  destruct it as [d | id st]; intro H; simpl.
  - destruct (serialize d) as [f |] eqn:Hs; [exists f; reflexivity |].
    rewrite (exec_message_unsupported d w Hs) in H. discriminate.
  - destruct (to_bson id) as [q |] eqn:Hq.
    + destruct (to_bson st) as [s |] eqn:Hst; [exists q, s; auto |].
      rewrite (exec_status_unsupported id st w (or_intror Hst)) in H. discriminate.
    + rewrite (exec_status_unsupported id st w (or_introl Hq)) in H. discriminate.
Qed.

Lemma grown_refl (c : collection) : grown c c.
Proof.
  exists c, []. split; [symmetry; apply app_nil_r | apply all2_refl, ses_refl].
Qed.

Lemma grown_same (c c' : collection) :
  Forall2 same_except_status c c' -> grown c c'.
Proof. intro F. exists c', []. split; [symmetry; apply app_nil_r | exact F]. Qed.

Lemma all2_app_inv_l {A : Type} (R : A -> A -> Prop) (l1 l2 l' : list A) :
  Forall2 R (l1 ++ l2) l' ->
  exists l1' l2', l' = l1' ++ l2' /\ Forall2 R l1 l1' /\ Forall2 R l2 l2'.
Proof.
  revert l'. induction l1 as [| x l1 IH]; simpl; intros l' F.
  - exists [], l'. repeat split; [constructor | exact F].
  - inversion F as [| ? y ? l'' Hxy F']; subst.
    destruct (IH l'' F') as [l1' [l2' [-> [F1 F2]]]].
    exists (y :: l1'), l2'. repeat split; [constructor; assumption | exact F2].
Qed.

Lemma grown_trans (c1 c2 c3 : collection) : grown c1 c2 -> grown c2 c3 -> grown c1 c3.
Proof.
  intros [k1 [a1 [-> F1]]] [k2 [a2 [-> F2]]].
  destruct (all2_app_inv_l _ _ _ _ F2) as [k1' [a1' [-> [G1 G2]]]].
  exists k1', (a1' ++ a2). split; [symmetry; apply app_assoc |].
  eapply all2_trans; [exact ses_trans | exact F1 | exact G1].
Qed.

Lemma grown_existsb (q : bson) (c c' : collection) :
  grown c c' -> existsb (by_msg_id q) c = true -> existsb (by_msg_id q) c' = true.
Proof.
  intros [kept [added [-> F]]] H.
  rewrite existsb_app, <- (ses_existsb q c kept F), H. reflexivity.
Qed.

Lemma exec_item_grown (it : item) (w w' : world) (r : result unit) :
  exec_item clock it w = (w', r) -> grown (col w) (col w').
Proof.
  destruct it as [d | id st]; intro H.
  - destruct (serialize d) as [f |] eqn:Hs.
    + destruct (existsb (by_msg_id (msg_id f)) (col w)) eqn:He.
      * rewrite (exec_message_hit d f w Hs He) in H. inversion H; subst; simpl.
        apply grown_same. apply updateOne_related; [apply ses_refl |].
        intros; apply seu_ses, set_updatedAt_seu.
      * rewrite (exec_message_miss d f w Hs He) in H. inversion H; subst; simpl.
        eexists (col w), _. split; [reflexivity | apply all2_refl, ses_refl].
    + rewrite (exec_message_unsupported d w Hs) in H. inversion H; subst; simpl.
      apply grown_refl.
  - destruct (to_bson id) as [q |] eqn:Hq.
    + destruct (to_bson st) as [s |] eqn:Hst.
      * rewrite (exec_status id st q s w Hq Hst) in H. inversion H; subst; simpl.
        apply grown_same. apply updateOne_related; [apply ses_refl |].
        intros; apply set_status_ses.
      * rewrite (exec_status_unsupported id st w (or_intror Hst)) in H.
        inversion H; subst; simpl. apply grown_refl.
    + rewrite (exec_status_unsupported id st w (or_introl Hq)) in H.
      inversion H; subst; simpl. apply grown_refl.
Qed.

Lemma exec_items_cons (it : item) (items : list item) (w : world) :
  exec_items clock (it :: items) w =
    match exec_item clock it w with
    | (w1, Ok _) => exec_items clock items w1
    | (w1, Throw e) => (w1, Throw e)
    end.
Proof. reflexivity. Qed.

Lemma exec_items_grown (items : list item) (w w' : world) (r : result unit) :
  exec_items clock items w = (w', r) -> grown (col w) (col w').
Proof.
  revert w. induction items as [| it items IH]; intros w H.
  - inversion H; subst. apply grown_refl.
  - rewrite exec_items_cons in H.
    destruct (exec_item clock it w) as [w1 [[] | e]] eqn:E.
    + eapply grown_trans; [eapply exec_item_grown; exact E | apply IH; exact H].
    + inversion H; subst. eapply exec_item_grown; exact E.
Qed.

Lemma covered_grown (c c' : collection) (it : item) :
  grown c c' -> covered c it -> covered c' it.
Proof.
  intros G. destruct it as [d | id st]; simpl; [| trivial].
  intros [f [Hs He]]. exists f. split; [exact Hs |].
  eapply grown_existsb; eassumption.
Qed.

(** After a message item, a document has its [msg_id]. *)
Lemma exec_item_covers (it : item) (w w' : world) :
  exec_item clock it w = (w', Ok tt) -> covered (col w') it.
Proof.
  destruct it as [d | id st]; intro H; simpl; [| trivial].
  destruct (serialize d) as [f |] eqn:Hs.
  - exists f. split; [reflexivity |].
    destruct (existsb (by_msg_id (msg_id f)) (col w)) eqn:He.
    + eapply grown_existsb; [| exact He].
      eapply (exec_item_grown (MessageItem d)); exact H.
    + rewrite (exec_message_miss d f w Hs He) in H. inversion H; subst; simpl.
      rewrite existsb_app; simpl. unfold by_msg_id at 2; simpl.
      rewrite field_matches_refl; [apply orb_true_r; reflexivity |].
      eapply to_bson_present. eapply serialize_msg_id; exact Hs.
  - rewrite (exec_message_unsupported d w Hs) in H. discriminate.
Qed.

(** A run that reached its end took only supported items and leaves every
    message item covered. *)
Lemma exec_items_ok (items : list item) (w w' : world) :
  exec_items clock items w = (w', Ok tt) ->
  Forall supported items /\ Forall (covered (col w')) items.
Proof.
  revert w. induction items as [| it items IH]; intros w H.
  - split; constructor.
  - rewrite exec_items_cons in H.
    destruct (exec_item clock it w) as [w1 [[] | e]] eqn:E; [| discriminate].
    destruct (IH w1 H) as [Hsup Hcov]. split; constructor; auto.
    + eapply exec_item_ok_supported; exact E.
    + eapply covered_grown; [eapply exec_items_grown; exact H |].
      eapply exec_item_covers; exact E.
Qed.
End Exec.

End RunFacts.

(* ===================================================================== *)
(** ** A sequence of status patches, applied twice *)
(* ===================================================================== *)

Module PatchFacts.
Import JS Mongo Effects Ingest Resolver Spec StoreFacts RunFacts.

Lemma apply_patches_nil (ps : list patch) : apply_patches ps [] = [].
Proof. induction ps as [| p ps IH]; simpl; [reflexivity | exact IH]. Qed.

Lemma apply_to_doc_ses (ps : list patch) (d : doc) :
  same_except_status d (apply_to_doc ps d).
Proof.
  revert d. induction ps as [| p ps IH]; intro d; simpl.
  - apply ses_refl.
  - eapply ses_trans; [apply set_status_ses | apply IH].
Qed.

Lemma filter_selects_ses (d d' : doc) (ps : list patch) :
  same_except_status d d' -> filter (selects d) ps = filter (selects d') ps.
Proof.
  intro H. apply filter_ext. intro p. unfold selects. apply ses_by_either_id; exact H.
Qed.

(** The head of the collection takes the patches that select it, the tail
    takes the others. *)
Lemma apply_patches_cons (ps : list patch) (d : doc) (c : collection) :
  apply_patches ps (d :: c) =
  apply_to_doc (filter (selects d) ps) d :: apply_patches (filter (skips d) ps) c.
Proof.
  revert d c. induction ps as [| p ps IH]; intros d c.
  - reflexivity.
  - change (apply_patches (p :: ps) (d :: c))
      with (apply_patches ps (apply_patch p (d :: c))).
    cbn [filter]. unfold skips at 1. destruct (selects d p) eqn:E; cbn [negb].
    + assert (H : apply_patch p (d :: c)
                  = set_status (patch_status p) (patch_time p) d :: c).
      { unfold apply_patch; simpl. unfold selects in E. rewrite E. reflexivity. }
      assert (S : same_except_status d (set_status (patch_status p) (patch_time p) d))
        by apply set_status_ses.
      assert (K : filter (skips (set_status (patch_status p) (patch_time p) d)) ps
                  = filter (skips d) ps).
      { apply filter_ext. intro p'. unfold skips, selects.
        rewrite (ses_by_either_id _ _ _ S). reflexivity. }
      rewrite H, IH, K, <- (filter_selects_ses _ _ ps S). reflexivity.
    + assert (H : apply_patch p (d :: c) = d :: apply_patch p c).
      { unfold apply_patch; simpl. unfold selects in E. rewrite E.
        destruct (updateOne _ _ c); reflexivity. }
      rewrite H, IH. reflexivity.
Qed.

Lemma apply_to_doc_id (ps : list patch) (d : doc) : _id (apply_to_doc ps d) = _id d.
Proof.
  revert d. induction ps as [| p ps IH]; intro d; simpl; [reflexivity |].
  rewrite IH. reflexivity.
Qed.

Lemma apply_to_doc_content (ps : list patch) (d : doc) :
  content (apply_to_doc ps d) = with_status (last_status ps) (content d).
Proof.
  revert d. induction ps as [| p ps IH]; intro d; simpl; [reflexivity |].
  rewrite IH. destruct (last_status ps); reflexivity.
Qed.

Lemma with_status_twice (s : option bson) (f : fields bson) :
  with_status s (with_status s f) = with_status s f.
Proof. destruct s; reflexivity. Qed.

Lemma same_patch_last_status (ps ps' : list patch) :
  Forall2 same_patch ps ps' -> last_status ps = last_status ps'.
Proof.
  intro F. induction F as [| p p' ps ps' [_ Hs] F IH]; simpl; [reflexivity |].
  rewrite IH, Hs. reflexivity.
Qed.

Lemma same_patch_filter (f f' : patch -> bool) (ps ps' : list patch) :
  (forall p p', same_patch p p' -> f p = f' p') ->
  Forall2 same_patch ps ps' -> Forall2 same_patch (filter f ps) (filter f' ps').
Proof.
  intros Hf F. induction F as [| p p' ps ps' Hp F IH]; simpl.
  - constructor.
  - rewrite (Hf p p' Hp). destruct (f' p'); [constructor; assumption | exact IH].
Qed.

(** Patching a second time, with the same patches sent at other times,
    changes no more than [updatedAt]. *)
Lemma apply_patches_twice (c : collection) :
  forall (ps ps' : list patch) (c' : collection),
    Forall2 same_patch ps ps' ->
    Forall2 same_except_updatedAt (apply_patches ps c) c' ->
    Forall2 same_except_updatedAt (apply_patches ps c) (apply_patches ps' c').
Proof.
  induction c as [| d c IH]; intros ps ps' c' Hps F.
  - rewrite apply_patches_nil in *. inversion F; subst.
    rewrite apply_patches_nil. constructor.
  - rewrite apply_patches_cons in *.
    inversion F as [| ? d' ? c0' Hd Hc]; subst.
    rewrite apply_patches_cons.
    assert (Sd : same_except_status d d').
    { eapply ses_trans; [apply apply_to_doc_ses | apply seu_ses; exact Hd]. }
    constructor.
    + destruct Hd as [Hid Hcontent].
      split; [rewrite !apply_to_doc_id in *; exact Hid |].
      rewrite (apply_to_doc_content (filter (selects d') ps') d'), <- Hcontent.
      rewrite (apply_to_doc_content (filter (selects d) ps) d).
      rewrite <- (same_patch_last_status (filter (selects d) ps) (filter (selects d') ps')).
      * rewrite with_status_twice. reflexivity.
      * apply same_patch_filter; [| exact Hps].
        intros p p' [Hq _]. unfold selects. rewrite Hq.
        apply ses_by_either_id; exact Sd.
    + apply IH; [| exact Hc].
      apply same_patch_filter; [| exact Hps].
      intros p p' [Hq _]. unfold skips, selects. rewrite Hq.
      rewrite (ses_by_either_id _ _ _ Sd). reflexivity.
Qed.

End PatchFacts.

(* ===================================================================== *)
(** ** Running the items of a payload a second time *)
(* ===================================================================== *)

Module RerunFacts.
Import JS Mongo Effects Ingest Resolver Spec StoreFacts RunFacts PatchFacts TraceFacts.
Local Open Scope monad_scope.

Section Rerun.
Variable clock : nat -> Z.

Lemma exec_items_app (xs ys : list item) (w w1 : world) :
  exec_items clock xs w = (w1, Ok tt) ->
  exec_items clock (xs ++ ys) w = exec_items clock ys w1.
Proof.
  intro H. unfold exec_items in *. rewrite for_each_app. unfold bind. rewrite H.
  reflexivity.
Qed.

Lemma exec_items_app_ok (xs ys : list item) (w w' : world) :
  exec_items clock (xs ++ ys) w = (w', Ok tt) ->
  exists w1, exec_items clock xs w = (w1, Ok tt) /\ exec_items clock ys w1 = (w', Ok tt).
Proof.
  unfold exec_items. rewrite for_each_app. unfold bind.
  destruct (for_each xs (exec_item clock) w) as [w1 [[] | e]]; intro H.
  - exists w1. split; [reflexivity | exact H].
  - discriminate.
Qed.

(** Items that find their documents insert nothing: the documents keep
    everything but [status] and [updatedAt]. *)
Lemma rerun_covered (items : list item) :
  forall w, Forall supported items -> Forall (covered (col w)) items ->
  exists w', exec_items clock items w = (w', Ok tt) /\
             Forall2 same_except_status (col w) (col w') /\
             next_oid w' = next_oid w.
Proof.
  induction items as [| it items IH]; intros w Hsup Hcov.
  - exists w. repeat split. apply all2_refl, ses_refl.
  - inversion Hsup as [| ? ? Hs Hsup']; subst.
    inversion Hcov as [| ? ? Hc Hcov']; subst.
    rewrite exec_items_cons.
    assert (Step : exists w1, exec_item clock it w = (w1, Ok tt) /\
                              Forall2 same_except_status (col w) (col w1) /\
                              next_oid w1 = next_oid w).
    { destruct it as [d | id st].
      - destruct Hc as [f [Hf He]].
        rewrite (exec_message_hit clock d f w Hf He). eexists. split; [reflexivity |].
        simpl. split; [| reflexivity].
        apply updateOne_related; [apply ses_refl |].
        intros; apply seu_ses, set_updatedAt_seu.
      - destruct Hs as [q [s [Hq Hst]]].
        rewrite (exec_status clock id st q s w Hq Hst). eexists. split; [reflexivity |].
        simpl. split; [| reflexivity].
        apply updateOne_related; [apply ses_refl | intros; apply set_status_ses]. }
    destruct Step as [w1 [E [F1 N1]]]. rewrite E.
    destruct (IH w1 Hsup') as [w' [E' [F' N']]].
    { eapply Forall_impl; [| exact Hcov'].
      intros it'. apply covered_grown. apply grown_same; exact F1. }
    exists w'. split; [exact E' |]. split; [| congruence].
    eapply all2_trans; [exact ses_trans | exact F1 | exact F'].
Qed.

(** Message items that find their documents change [updatedAt] only. *)
Lemma rerun_messages (ms : list item) :
  forallb is_message ms = true ->
  forall w, Forall (covered (col w)) ms ->
  exists w', exec_items clock ms w = (w', Ok tt) /\
             Forall2 same_except_updatedAt (col w) (col w') /\
             next_oid w' = next_oid w.
Proof.
  induction ms as [| it ms IH]; intros Hm w Hcov.
  - exists w. repeat split. apply all2_refl, seu_refl.
  - simpl in Hm. apply andb_prop in Hm. destruct Hm as [Hit Hm].
    inversion Hcov as [| ? ? Hc Hcov']; subst.
    destruct it as [d | id st]; [| discriminate].
    destruct Hc as [f [Hf He]].
    rewrite exec_items_cons, (exec_message_hit clock d f w Hf He).
    set (w1 := mkWorld _ _ _).
    assert (F1 : Forall2 same_except_updatedAt (col w) (col w1)).
    { subst w1; simpl. apply updateOne_related; [apply seu_refl |].
      intros; apply set_updatedAt_seu. }
    destruct (IH Hm w1) as [w' [E' [F' N']]].
    { eapply Forall_impl; [| exact Hcov'].
      intros it'. apply covered_grown. apply grown_same.
      eapply all2_weaken; [exact seu_ses | exact F1]. }
    exists w'. split; [exact E' |]. split; [| rewrite N'; reflexivity].
    eapply all2_trans; [exact seu_trans | exact F1 | exact F'].
Qed.

(** Status items come down to a list of patches. *)
Lemma exec_statuses (ss : list item) :
  forallb (fun it => negb (is_message it)) ss = true -> Forall supported ss ->
  forall w, exists ps w',
    exec_items clock ss w = (w', Ok tt) /\ Forall2 patch_of ss ps /\
    col w' = apply_patches ps (col w) /\ next_oid w' = next_oid w.
Proof.
  induction ss as [| it ss IH]; intros Hs Hsup w.
  - exists [], w. repeat split. constructor.
  - simpl in Hs. apply andb_prop in Hs. destruct Hs as [Hit Hs].
    inversion Hsup as [| ? ? Hsupp Hsup']; subst.
    destruct it as [d | id st]; [discriminate |].
    destruct Hsupp as [q [s [Hq Hst]]].
    rewrite exec_items_cons, (exec_status clock id st q s w Hq Hst).
    set (w1 := mkWorld _ _ _).
    destruct (IH Hs Hsup' w1) as [ps [w' [E [P [C N]]]]].
    exists ((q, s, DateAt (clock (ticks w))) :: ps), w'.
    split; [exact E |]. split; [constructor; [split; assumption | exact P] |].
    split; [rewrite C; reflexivity | rewrite N; reflexivity].
Qed.

Lemma patch_of_same (ss : list item) (ps ps' : list patch) :
  Forall2 patch_of ss ps -> Forall2 patch_of ss ps' -> Forall2 same_patch ps ps'.
Proof.
  intro F. revert ps'. induction F as [| it p ss ps Hp F IH]; intros ps' G.
  - inversion G; constructor.
  - inversion G as [| ? p' ? ps'' Hp' G']; subst. constructor; [| apply IH; exact G'].
    destruct it as [d | id st]; [contradiction |].
    destruct Hp as [A B], Hp' as [A' B']. split; congruence.
Qed.

Lemma messages_first_split (items : list item) :
  messages_first items = true ->
  exists ms ss, items = ms ++ ss /\ forallb is_message ms = true /\
                forallb (fun it => negb (is_message it)) ss = true.
Proof.
  induction items as [| it items IH]; simpl; intro H.
  - exists [], []. repeat split.
  - destruct it as [d | id st].
    + destruct (IH H) as [ms [ss [-> [Hm Hs]]]].
      exists (MessageItem d :: ms), ss. repeat split; assumption.
    + exists [], (StatusItem id st :: items). repeat split. simpl. exact H.
Qed.

(** The items of a payload, run a second time. *)
Lemma exec_items_twice (items : list item) (w0 w1 : world) :
  exec_items clock items w0 = (w1, Ok tt) ->
  exists w2,
    exec_items clock items w1 = (w2, Ok tt) /\
    next_oid w2 = next_oid w1 /\
    Forall2 same_except_status (col w1) (col w2) /\
    (messages_first items = true ->
     Forall2 same_except_updatedAt (col w1) (col w2)).
Proof.
  intro Run1.
  destruct (exec_items_ok clock items w0 w1 Run1) as [Hsup Hcov].
  destruct (rerun_covered items w1 Hsup Hcov) as [w2 [Run2 [F N]]].
  exists w2. repeat split; try assumption.
  intro Hmf. destruct (messages_first_split items Hmf) as [ms [ss [-> [Hm Hs]]]].
  destruct (exec_items_app_ok ms ss w0 w1 Run1) as [wA [RunA RunS]].
  apply Forall_app in Hsup. destruct Hsup as [_ HsupS].
  apply Forall_app in Hcov. destruct Hcov as [HcovM _].
  destruct (rerun_messages ms Hm w1 HcovM) as [wB [RunB [FB NB]]].
  rewrite (exec_items_app ms ss w1 wB RunB) in Run2.
  destruct (exec_statuses ss Hs HsupS wA) as [ps [w1' [E1 [P1 [C1 _]]]]].
  destruct (exec_statuses ss Hs HsupS wB) as [ps' [w2' [E2 [P2 [C2 _]]]]].
  rewrite RunS in E1. inversion E1; subst w1'.
  rewrite Run2 in E2. inversion E2; subst w2'.
  rewrite C2. rewrite C1 in *.
  apply apply_patches_twice; [eapply patch_of_same; eassumption | exact FB].
Qed.

(** The unique index holds on. *)
Lemma exec_item_unique (it : item) (w w' : world) (r : result unit) :
  exec_item clock it w = (w', r) ->
  unique_msg_id (col w) -> unique_msg_id (col w').
Proof.
  intros H U.
  destruct it as [d | id st].
  - destruct (serialize d) as [f |] eqn:Hs.
    + destruct (existsb (by_msg_id (msg_id f)) (col w)) eqn:He.
      * apply (ses_unique (col w) (col w')); [| exact U].
        rewrite (exec_message_hit clock d f w Hs He) in H. inversion H; subst; simpl.
        apply updateOne_related; [apply ses_refl |].
        intros; apply seu_ses, set_updatedAt_seu.
      * rewrite (exec_message_miss clock d f w Hs He) in H. inversion H; subst; simpl.
        assert (P : present (msg_id f) = true).
        { eapply to_bson_present. eapply serialize_msg_id; exact Hs. }
        assert (A : is_array (msg_id f) = false) by apply (serialize_all d f Hs).
        apply unique_snoc; [exact U |].
        intros x Hx [k [K1 K2]]. unfold msg_keys in K2. simpl in K2.
        rewrite (scalar_keys _ A P) in K2. destruct K2 as [<- | []].
        revert K1. apply no_match_no_key; [exact A | exact P |].
        destruct (by_msg_id (msg_id f) x) eqn:B; [| reflexivity].
        assert (existsb (by_msg_id (msg_id f)) (col w) = true)
          by (apply existsb_exists; exists x; split; assumption).
        congruence.
    + rewrite (exec_message_unsupported clock d w Hs) in H. inversion H; subst; exact U.
  - apply (ses_unique (col w) (col w')); [| exact U].
    destruct (to_bson id) as [q |] eqn:Hq.
    + destruct (to_bson st) as [s |] eqn:Hst.
      * rewrite (exec_status clock id st q s w Hq Hst) in H. inversion H; subst; simpl.
        apply updateOne_related; [apply ses_refl | intros; apply set_status_ses].
      * rewrite (exec_status_unsupported clock id st w (or_intror Hst)) in H.
        inversion H; subst; simpl. apply all2_refl, ses_refl.
    + rewrite (exec_status_unsupported clock id st w (or_introl Hq)) in H.
      inversion H; subst; simpl. apply all2_refl, ses_refl.
Qed.

Lemma exec_items_unique (items : list item) (w w' : world) (r : result unit) :
  exec_items clock items w = (w', r) ->
  unique_msg_id (col w) -> unique_msg_id (col w').
Proof.
  revert w. induction items as [| it items IH]; intros w H U.
  - inversion H; subst. exact U.
  - rewrite exec_items_cons in H.
    destruct (exec_item clock it w) as [w1 [[] | e]] eqn:E.
    + eapply IH; [exact H |]. eapply exec_item_unique; eassumption.
    + inversion H; subst. eapply exec_item_unique; eassumption.
Qed.

Lemma exec_trace_ok (t : trace) (w w' : world) :
  exec_trace clock t w = (w', Ok tt) ->
  snd t = None /\ exec_items clock (fst t) w = (w', Ok tt).
Proof.
  unfold exec_trace, bind.
  destruct (exec_items clock (fst t) w) as [w1 [[] | e]]; [| discriminate].
  destruct (snd t); simpl; intro H; [discriminate |].
  inversion H; subst. split; reflexivity.
Qed.

Lemma exec_trace_of_items (t : trace) (w : world) :
  snd t = None -> exec_trace clock t w = exec_items clock (fst t) w.
Proof.
  intro H. unfold exec_trace, bind. rewrite H.
  destruct (exec_items clock (fst t) w) as [w1 [[] | e]]; reflexivity.
Qed.
End Rerun.

(** *** The items of a flat payload *)

Lemma each_messages (make : value -> Date -> fields value) (l : list value) :
  forallb is_message (fst (each l (message_item make))) = true.
Proof.
  induction l as [| m l IH]; simpl; [reflexivity |].
  unfold message_item at 1. destruct (prop m "from"); simpl; [exact IH | reflexivity].
Qed.

Lemma each_statuses (l : list value) :
  forallb (fun it => negb (is_message it)) (fst (each l status_item)) = true.
Proof.
  induction l as [| s l IH]; simpl; [reflexivity |].
  unfold status_item at 1. destruct (prop s "id"); simpl; [exact IH | reflexivity].
Qed.

Lemma messages_first_app (ms ss : list item) :
  forallb is_message ms = true ->
  forallb (fun it => negb (is_message it)) ss = true ->
  messages_first (ms ++ ss) = true.
Proof.
  intros Hm Hs. induction ms as [| it ms IH]; simpl.
  - destruct ss as [| [d | id st] ss]; simpl in *; try reflexivity; try discriminate.
    exact Hs.
  - simpl in Hm. apply andb_prop in Hm. destruct Hm as [Hit Hm].
    destruct it; [apply IH; exact Hm | discriminate].
Qed.

Lemma messages_first_only_messages (ms : list item) :
  forallb is_message ms = true -> messages_first ms = true.
Proof.
  intro H. rewrite <- (app_nil_r ms). apply messages_first_app; [exact H | reflexivity].
Qed.

(** In a flat payload every message item comes before every status item. *)
Lemma flat_messages_first (BUSINESS_NUMBER : option string) (payload : value) :
  flat payload ->
  messages_first (fst (payload_items BUSINESS_NUMBER payload)) = true.
Proof.
  intros [metaData [Hp Ha]]. unfold payload_items. rewrite Hp; simpl. rewrite Ha.
  set (M := each_if_array (get payload "messages") _).
  set (S := each_if_array (get payload "statuses") _).
  assert (HM : forallb is_message (fst M) = true).
  { subst M. unfold each_if_array.
    destruct (as_array (get payload "messages")); [apply each_messages | reflexivity]. }
  assert (HS : forallb (fun it => negb (is_message it)) (fst S) = true).
  { subst S. unfold each_if_array.
    destruct (as_array (get payload "statuses")); [apply each_statuses | reflexivity]. }
  unfold then_. destruct M as [ms [e |]]; simpl in *.
  - apply messages_first_only_messages; exact HM.
  - apply messages_first_app; assumption.
Qed.

End RerunFacts.

(* ===================================================================== *)
(** ** Properties of the ingest *)
(* ===================================================================== *)

Module IngestProps.
Import JS Mongo Effects Ingest Resolver Spec.
Import StoreFacts RunFacts PatchFacts TraceFacts RerunFacts Examples.

(** C1, as stated, fails: with the status of [m1] in a change before the one
    that holds [m1], the first ingest drops the status patch and leaves
    [m1] with status ['received'], the second ingest finds [m1] and sets
    ['read'].  The two states differ in [status], not only in [updatedAt]. *)
Lemma reingest_changes_status :
  exists w1 w2 d1 d2,
    process_payload (Some "biz") tick_clock status_then_message empty_world
      = (w1, Ok tt) /\
    process_payload (Some "biz") tick_clock status_then_message w1 = (w2, Ok tt) /\
    col w1 = [d1] /\ col w2 = [d2] /\
    status (content d1) = BStr "received" /\
    status (content d2) = BStr "read" /\
    ~ same_except_updatedAt d1 d2.
Proof.
  do 4 eexists.
  split; [vm_compute; reflexivity |].
  split; [vm_compute; reflexivity |].
  split; [reflexivity |]. split; [reflexivity |].
  split; [reflexivity |]. split; [reflexivity |].
  intros [_ H]. discriminate H.
Qed.

(** C1 (amended).  A payload that was ingested is ingested a second time
    without error; the second ingest inserts no document and changes no
    field but [status] and [updatedAt]; when no status item of the payload
    comes before a message item, as in every flat payload, it changes
    [updatedAt] only; an upsert whose [msg_id] is already stored changes
    [updatedAt] only; and [msg_id] stays unique. *)
Theorem reingest_idempotent
    (BUSINESS_NUMBER : option string) (clock : nat -> Z) (payload : value)
    (w0 w1 : world) :
  process_payload BUSINESS_NUMBER clock payload w0 = (w1, Ok tt) ->
  exists w2,
    process_payload BUSINESS_NUMBER clock payload w1 = (w2, Ok tt) /\
    List.length (col w2) = List.length (col w1) /\
    Forall2 same_except_status (col w1) (col w2) /\
    (messages_first (fst (payload_items BUSINESS_NUMBER payload)) = true ->
     Forall2 same_except_updatedAt (col w1) (col w2)) /\
    (flat payload -> Forall2 same_except_updatedAt (col w1) (col w2)) /\
    (unique_msg_id (col w0) -> unique_msg_id (col w1) /\ unique_msg_id (col w2)) /\
    (forall (doc : fields value) (f : fields bson) (t : Date) (w : world) (d : Mongo.doc),
        serialize doc = Some f -> In d (col w) ->
        msg_id (content d) = msg_id f ->
        exists w', updateOne_upsert doc t w = (w', Ok false) /\
                   Forall2 same_except_updatedAt (col w) (col w')).
Proof.
  intro Run1.
  rewrite process_payload_trace in Run1.
  apply exec_trace_ok in Run1. destruct Run1 as [Hend Run1].
  destruct (exec_items_twice clock _ w0 w1 Run1) as [w2 [Run2 [N [F Fmf]]]].
  exists w2.
  split. { rewrite process_payload_trace, exec_trace_of_items by exact Hend. exact Run2. }
  split. { symmetry. eapply all2_length; exact F. }
  split; [exact F |].
  split; [exact Fmf |].
  split. { intro Hflat. apply Fmf. apply flat_messages_first; exact Hflat. }
  split.
  { intro U.
    assert (U1 : unique_msg_id (col w1)) by (eapply exec_items_unique; eassumption).
    split; [exact U1 | eapply exec_items_unique; eassumption]. }
  intros doc f t w d Hs Hin Hid.
  assert (He : existsb (by_msg_id (msg_id f)) (col w) = true).
  { apply existsb_exists. exists d. split; [exact Hin |].
    unfold by_msg_id. rewrite Hid. apply field_matches_refl.
    eapply to_bson_present. eapply serialize_msg_id; exact Hs. }
  unfold updateOne_upsert. rewrite Hs.
  destruct (upsert_hit (msg_id f) f t (next_oid w) (col w) He) as [A B].
  destruct (upsert (msg_id f) f t (next_oid w) (col w)) as [c ins]; simpl in *.
  subst ins. eexists. split; [reflexivity | exact B].
Qed.

Lemma reingest_idempotent_witness :
  process_payload (Some "biz") tick_clock flat_m1 empty_world = (m1_stored, Ok tt) /\
  flat flat_m1 /\
  exists w2,
    process_payload (Some "biz") tick_clock flat_m1 m1_stored = (w2, Ok tt) /\
    List.length (col w2) = List.length (col m1_stored) /\
    Forall2 same_except_updatedAt (col m1_stored) (col w2).
Proof.
  assert (H : process_payload (Some "biz") tick_clock flat_m1 empty_world
              = (m1_stored, Ok tt)) by reflexivity.
  assert (F : flat flat_m1) by (exists VUndef; split; reflexivity).
  split; [exact H |]. split; [exact F |].
  destruct (reingest_idempotent (Some "biz") tick_clock flat_m1 empty_world m1_stored H)
    as [w2 [H1 [H2 [_ [_ [H3 _]]]]]].
  exists w2. split; [exact H1 |]. split; [exact H2 | exact (H3 F)].
Defined.

End IngestProps.

(* ===================================================================== *)
(** ** Properties of the message and status items *)
(* ===================================================================== *)

Module MessageProps.
Import JS Mongo Effects Ingest Resolver Spec.
Import StoreFacts RunFacts TraceFacts RerunFacts Examples.
Local Open Scope monad_scope.

Lemma serialize_fields (d : fields value) (f : fields bson) :
  serialize d = Some f ->
  to_bson (wa_id d) = Some (wa_id f) /\
  to_bson (direction d) = Some (direction f) /\
  to_bson (status d) = Some (status f) /\
  to_bson (meta_msg_id d) = Some (meta_msg_id f) /\
  timestamp f = stored_date (timestamp d).
Proof.
  intro H. pose proof (serialize_all d f H) as A. intuition.
Qed.

Lemma strict_eq_string (sender : string) (v : value) :
  strict_eq (VStr sender) v = true <-> v = VStr sender.
Proof.
  destruct v; simpl; split; intro H; try congruence.
  - apply String.eqb_eq in H. congruence.
  - injection H as ->. apply String.eqb_refl.
Qed.

Lemma business_number_string (BUSINESS_NUMBER : option string) :
  business_number BUSINESS_NUMBER
  = VStr (match BUSINESS_NUMBER with Some b => b | None => "" end).
Proof.
  unfold business_number, or_else. destruct BUSINESS_NUMBER as [b |]; simpl.
  - destruct (String.eqb_spec b ""); simpl; congruence.
  - reflexivity.
Qed.

Lemma envelope_doc_builder (value : value) : builder (envelope_doc value).
Proof. intros m t; reflexivity. Qed.

Lemma fallback_doc_builder (BUSINESS_NUMBER : option string) :
  builder (fallback_doc BUSINESS_NUMBER).
Proof. intros m t; reflexivity. Qed.

Section Message.
Variable clock : nat -> Z.

Lemma process_message_item (make : value -> Date -> fields value) (m : value) (w : world) :
  builder make ->
  process_message clock make m w =
    if nullish m then (w, Throw TypeError)
    else exec_item clock (MessageItem (make m InvalidDate)) w.
Proof.
  intro B. rewrite process_message_trace by (intro t; apply B).
  unfold message_item, prop. destruct (nullish m); [reflexivity |].
  unfold exec_trace, exec_items; cbn [fst snd for_each]. unfold bind, ret.
  match goal with
  | |- context [exec_item clock ?i w] =>
      destruct (exec_item clock i w) as [w' [[] | e]]; reflexivity
  end.
Qed.

Lemma process_status_item (s : value) (w : world) :
  process_status clock s w =
    if nullish s then (w, Throw TypeError)
    else exec_item clock
           (StatusItem (or_else (get s "id") (get s "meta_msg_id")) (get s "status")) w.
Proof.
  rewrite process_status_trace.
  unfold status_item, prop. destruct (nullish s); [reflexivity |].
  unfold exec_trace, exec_items; cbn [fst snd for_each]. unfold bind, ret.
  match goal with
  | |- context [exec_item clock ?i w] =>
      destruct (exec_item clock i w) as [w' [[] | e]]; reflexivity
  end.
Qed.

(** The document a message item inserts. *)
Lemma inserted_doc (doc : fields value) (w w' : world) (d : Mongo.doc) :
  exec_item clock (MessageItem doc) w = (w', Ok tt) ->
  col w' = col w ++ [d] ->
  exists f, serialize doc = Some f /\
            d = mkDoc (next_oid w) (created_at (DateAt (clock (ticks w))) f)
                  (DateAt (clock (S (ticks w)))).
Proof.
  intros H E.
  destruct (serialize doc) as [f |] eqn:Hs.
  - exists f. split; [reflexivity |].
    destruct (existsb (by_msg_id (msg_id f)) (col w)) eqn:He.
    + rewrite (exec_message_hit clock doc f w Hs He) in H. inversion H; subst; simpl in E.
      exfalso.
      assert (L : List.length (col w) = List.length (col w ++ [d])).
      { rewrite <- E. eapply all2_length.
        apply (updateOne_related same_except_updatedAt);
          [apply seu_refl | intros; apply set_updatedAt_seu]. }
      rewrite length_app in L. simpl in L. lia.
    + rewrite (exec_message_miss clock doc f w Hs He) in H. inversion H; subst; simpl in E.
      apply app_inv_head in E. inversion E. reflexivity.
  - rewrite (exec_message_unsupported clock doc w Hs) in H. discriminate.
Qed.

Lemma process_message_inserted (make : value -> Date -> fields value) (m : value)
    (w w' : world) (d : Mongo.doc) :
  builder make ->
  process_message clock make m w = (w', Ok tt) ->
  col w' = col w ++ [d] ->
  exists f, serialize (make m InvalidDate) = Some f /\
            d = mkDoc (next_oid w) (created_at (DateAt (clock (ticks w))) f)
                  (DateAt (clock (S (ticks w)))).
Proof.
  intros B H E. rewrite (process_message_item make m w B) in H.
  destruct (nullish m); [discriminate |].
  eapply inserted_doc; eassumption.
Qed.

End Message.

(** C2, as stated, fails on the envelope shape: the sender ["biz"] equals
    BUSINESS_NUMBER, the envelope's [phone_number_id] is ["999"], and the
    record is ['inbound']. *)
Lemma envelope_direction_ignores_business_number :
  exists w1 d,
    process_payload (Some "biz") tick_clock envelope_from_biz empty_world
      = (w1, Ok tt) /\
    col w1 = [d] /\
    wa_id (content d) = BStr "biz" /\
    direction (content d) = BStr "inbound".
Proof.
  do 2 eexists. split; [vm_compute; reflexivity |]. repeat split.
Qed.

(** C2 (amended).  The record inserted for a message whose sender is the
    string [sender] is ['outbound'] if and only if [sender] equals the
    business identity of the shape, else ['inbound']: in an envelope,
    [value.metadata.phone_number_id] of the change the message sits in (the
    empty string when absent); in a flat payload, BUSINESS_NUMBER (the empty
    string when unset). *)
Theorem direction_by_shape
    (BUSINESS_NUMBER : option string) (clock : nat -> Z) (value m : value)
    (sender : string) (w w' : world) (d : doc) :
  get m "from" = VStr sender ->
  col w' = col w ++ [d] ->
  (process_message clock (envelope_doc value) m w = (w', Ok tt) ->
   (direction (content d) = BStr "outbound" <-> phone_number_id value = VStr sender) /\
   (direction (content d) = BStr "inbound" <-> phone_number_id value <> VStr sender)) /\
  (process_message clock (fallback_doc BUSINESS_NUMBER) m w = (w', Ok tt) ->
   (direction (content d) = BStr "outbound"
    <-> sender = match BUSINESS_NUMBER with Some b => b | None => "" end) /\
   (direction (content d) = BStr "inbound"
    <-> sender <> match BUSINESS_NUMBER with Some b => b | None => "" end)).
Proof.
  intros Hfrom Hcol. split; intro Run.
  - destruct (process_message_inserted clock _ m w w' d (envelope_doc_builder value) Run Hcol)
      as [f [Hs ->]].
    apply serialize_fields in Hs. destruct Hs as [_ [Hdir _]].
    simpl in *. rewrite Hfrom in Hdir.
    destruct (strict_eq (VStr sender) (phone_number_id value)) eqn:E;
      simpl in Hdir; inversion Hdir; subst.
    + apply strict_eq_string in E. split; split; intro H; congruence.
    + assert (N : phone_number_id value <> VStr sender).
      { intro H. apply strict_eq_string in H. congruence. }
      split; split; intro H; first [congruence | reflexivity | contradiction].
  - destruct (process_message_inserted clock _ m w w' d
                (fallback_doc_builder BUSINESS_NUMBER) Run Hcol) as [f [Hs ->]].
    apply serialize_fields in Hs. destruct Hs as [_ [Hdir _]].
    simpl in *. rewrite Hfrom, business_number_string in Hdir.
    destruct (strict_eq (VStr sender) (VStr _)) eqn:E; simpl in Hdir; inversion Hdir; subst.
    + simpl in E. apply String.eqb_eq in E. split; split; intro H; congruence.
    + simpl in E. apply String.eqb_neq in E.
      split; split; intro H; first [congruence | reflexivity | contradiction].
Qed.

Lemma direction_by_shape_witness :
  get m1 "from" = VStr "111" /\
  col m1_stored = col empty_world ++ [m1_record] /\
  process_message tick_clock (fallback_doc (Some "biz")) m1 empty_world
    = (m1_stored, Ok tt) /\
  (direction (content m1_record) = BStr "inbound" <-> "111"%string <> "biz"%string).
Proof.
  assert (H1 : get m1 "from" = VStr "111") by reflexivity.
  assert (H2 : col m1_stored = col empty_world ++ [m1_record]) by reflexivity.
  assert (H3 : process_message tick_clock (fallback_doc (Some "biz")) m1 empty_world
               = (m1_stored, Ok tt)) by reflexivity.
  split; [exact H1 |]. split; [exact H2 |]. split; [exact H3 |].
  exact (proj2 (proj2 (direction_by_shape (Some "biz") tick_clock VNull m1 "111"
                         empty_world m1_stored m1_record H1 H2) H3)).
Defined.






End MessageProps.

(* ===================================================================== *)
(** ** Properties of the status updates *)
(* ===================================================================== *)

Module StatusProps.
Import JS Mongo Effects Ingest Resolver Server Spec.
Import StoreFacts RunFacts TraceFacts RerunFacts MessageProps Examples.
Local Open Scope monad_scope.

Lemma updateOne_upsert_grown (doc : fields value) (t : Date) (w : world) :
  grown (col w) (col (fst (updateOne_upsert doc t w))).
Proof.
  unfold updateOne_upsert. destruct (serialize doc) as [f |]; [| apply grown_refl].
  unfold upsert. destruct (existsb (by_msg_id (msg_id f)) (col w)); simpl.
  - apply grown_same. apply updateOne_related; [apply ses_refl |].
    intros; apply seu_ses, set_updatedAt_seu.
  - exists (col w), [mkDoc (next_oid w) f (stored_date t)]. split; [reflexivity |].
    apply all2_refl, ses_refl.
Qed.

Lemma updateOne_status_same (id st : value) (t : Date) (w : world) :
  Forall2 same_except_status (col w) (col (fst (updateOne_status id st t w))).
Proof.
  unfold updateOne_status.
  destruct (to_bson id) as [q |]; [| apply all2_refl, ses_refl].
  destruct (to_bson st) as [s |]; [| apply all2_refl, ses_refl].
  pose proof (updateOne_related same_except_status (by_either_id q) (set_status s t)
                ses_refl (fun d _ => set_status_ses s t d) (col w)) as H.
  unfold update. destruct (updateOne _ _ (col w)) as [c n]; exact H.
Qed.

Lemma post_status_same (clock : nat -> Z) (body : value) (w : world) :
  Forall2 same_except_status (col w) (col (fst (post_status clock body w))).
Proof.
  unfold post_status, try_catch, bind, lift, prop.
  destruct (nullish body); simpl; [apply all2_refl, ses_refl |].
  destruct (negb (truthy (get body "id")) || negb (truthy (get body "status")));
    simpl; [apply all2_refl, ses_refl |].
  pose proof (updateOne_status_same (get body "id") (get body "status")
                (DateAt (clock (ticks w)))
                (mkWorld (col w) (next_oid w) (S (ticks w)))) as H.
  destruct (updateOne_status _ _ _ _) as [w' [n | e]]; simpl in *.
  - destruct (0 <? n)%nat; exact H.
  - destruct e; exact H.
Qed.

Lemma get_messages_same (invalid_time : Z) (clock : nat -> Z) (wa : string) (w : world) :
  Forall2 same_except_status (col w)
    (col (fst (get_messages invalid_time clock wa w))).
Proof.
  unfold get_messages, now; simpl.
  apply (updateMany_related same_except_status); [apply ses_refl |].
  intros; apply set_status_ses.
Qed.

(** C7.  Each operation on the collection keeps the documents it finds in
    their places and changes at most their [status] and [updatedAt]: the
    upsert of the ingest (which may add one document at the end), the status
    patch of the ingest, POST /api/status and the read-marking of
    GET /api/messages/:wa_id; so does the ingest of a whole payload.  In
    particular [wa_id] never changes. *)
Theorem content_is_set_at_creation
    (BUSINESS_NUMBER : option string) (invalid_time : Z) (clock : nat -> Z)
    (w : world) :
  (forall doc t, grown (col w) (col (fst (updateOne_upsert doc t w)))) /\
  (forall id st t,
      Forall2 same_except_status (col w) (col (fst (updateOne_status id st t w)))) /\
  (forall body,
      Forall2 same_except_status (col w) (col (fst (post_status clock body w)))) /\
  (forall wa,
      Forall2 same_except_status (col w)
        (col (fst (get_messages invalid_time clock wa w)))) /\
  (forall payload,
      grown (col w) (col (fst (process_payload BUSINESS_NUMBER clock payload w)))) /\
  (forall d d', same_except_status d d' -> wa_id (content d) = wa_id (content d')).
Proof.
  split; [intros; apply updateOne_upsert_grown |].
  split; [intros; apply updateOne_status_same |].
  split; [intros; apply post_status_same |].
  split; [intros; apply get_messages_same |].
  split.
  - intro payload. rewrite process_payload_trace.
    unfold exec_trace, bind.
    destruct (exec_items clock (fst (payload_items BUSINESS_NUMBER payload)) w)
      as [w' r] eqn:E.
    apply exec_items_grown in E.
    destruct r as [[] | e]; [destruct (snd _) |]; exact E.
  - intros d d' H. apply H.
Qed.

(** C8.  A status item with neither [id] nor [meta_msg_id] resolves to the
    key [undefined], which the store reads as null: the query selects the
    first document whose [meta_msg_id] is null, or which has no [msg_id],
    and sets its status. *)
Theorem status_without_id_patches_a_record
    (clock : nat -> Z) (s : value) (st : bson) (w : world)
    (before : collection) (d : doc) (after : collection) :
  nullish s = false ->
  get s "id" = VUndef ->
  get s "meta_msg_id" = VUndef ->
  to_bson (get s "status") = Some st ->
  col w = before ++ d :: after ->
  (forall x, In x before -> by_either_id BNull x = false) ->
  meta_msg_id (content d) = BNull \/ msg_id (content d) = BMissing ->
  or_else (get s "id") (get s "meta_msg_id") = VUndef /\
  process_status clock s w =
    (mkWorld (before ++ set_status st (DateAt (clock (ticks w))) d :: after)
       (next_oid w) (S (ticks w)),
     Ok tt) /\
  status (content (set_status st (DateAt (clock (ticks w))) d)) = st.
Proof.
  intros Hs Hid Hmeta Hst Hcol Hbefore Hd.
  split; [rewrite Hid, Hmeta; reflexivity |].
  split; [| reflexivity].
  rewrite process_status_item, Hs, Hid, Hmeta.
  change (or_else VUndef VUndef) with VUndef.
  rewrite (exec_status clock VUndef _ BNull st w eq_refl Hst), Hcol.
  rewrite updateOne_first; [reflexivity | exact Hbefore |].
  unfold by_either_id. destruct Hd as [H | H]; rewrite H; simpl.
  - apply orb_true_r.
  - reflexivity.
Qed.

Lemma status_without_id_patches_a_record_witness :
  nullish no_id_read = false /\
  get no_id_read "id" = VUndef /\
  get no_id_read "meta_msg_id" = VUndef /\
  col m1_stored = [] ++ m1_record :: [] /\
  meta_msg_id (content m1_record) = BNull /\
  process_status tick_clock no_id_read m1_stored =
    (mkWorld ([] ++ set_status (BStr "read") (DateAt 2) m1_record :: []) 1 3, Ok tt).
Proof.
  assert (H1 : nullish no_id_read = false) by reflexivity.
  assert (H2 : get no_id_read "id" = VUndef) by reflexivity.
  assert (H3 : get no_id_read "meta_msg_id" = VUndef) by reflexivity.
  assert (H4 : to_bson (get no_id_read "status") = Some (BStr "read")) by reflexivity.
  assert (H5 : col m1_stored = [] ++ m1_record :: []) by reflexivity.
  assert (H6 : forall x, In x (@nil doc) -> by_either_id BNull x = false)
    by (intros x []).
  assert (H7 : meta_msg_id (content m1_record) = BNull) by reflexivity.
  split; [exact H1 |]. split; [exact H2 |]. split; [exact H3 |].
  split; [exact H5 |]. split; [exact H7 |].
  exact (proj1 (proj2 (status_without_id_patches_a_record tick_clock no_id_read
                         (BStr "read") m1_stored [] m1_record [] H1 H2 H3 H4 H5 H6
                         (or_introl H7)))).
Defined.

(** C10.  The status of a status item, and of the body of POST /api/status,
    is stored as it comes, whatever it is: the first document the id selects
    takes it.  (POST /api/status asks for a status that is not empty.) *)
Theorem status_is_stored_verbatim
    (clock : nat -> Z) (x : value) (q st : bson) (w : world)
    (before : collection) (d : doc) (after : collection) :
  truthy (get x "id") = true ->
  to_bson (get x "id") = Some q ->
  to_bson (get x "status") = Some st ->
  col w = before ++ d :: after ->
  (forall y, In y before -> by_either_id q y = false) ->
  by_either_id q d = true ->
  process_status clock x w =
    (mkWorld (before ++ set_status st (DateAt (clock (ticks w))) d :: after)
       (next_oid w) (S (ticks w)),
     Ok tt) /\
  (truthy (get x "status") = true ->
   post_status clock x w =
     (mkWorld (before ++ set_status st (DateAt (clock (ticks w))) d :: after)
        (next_oid w) (S (ticks w)),
      Ok 200%nat)) /\
  status (content (set_status st (DateAt (clock (ticks w))) d)) = st /\
  (~ In st documented_statuses ->
   ~ In (status (content (set_status st (DateAt (clock (ticks w))) d)))
       documented_statuses).
Proof.
  intros Hid Hq Hst Hcol Hbefore Hd.
  assert (Hx : nullish x = false).
  { destruct x; simpl in *; try reflexivity; discriminate. }
  split; [| split; [| split; [reflexivity | intro H; exact H]]].
  - rewrite process_status_item, Hx.
    unfold or_else. rewrite Hid.
    rewrite (exec_status clock _ _ q st w Hq Hst), Hcol.
    rewrite updateOne_first by assumption. reflexivity.
  - intro Hstatus. unfold post_status, try_catch, bind, lift, prop. rewrite Hx; simpl.
    rewrite Hid, Hstatus; simpl.
    unfold updateOne_status, update; simpl. rewrite Hq, Hst, Hcol.
    rewrite updateOne_first by assumption. reflexivity.
Qed.

Lemma status_is_stored_verbatim_witness :
  truthy (get m1_banana "id") = true /\
  col m1_stored = [] ++ m1_record :: [] /\
  by_either_id (BStr "m1") m1_record = true /\
  ~ In (BStr "banana") documented_statuses /\
  post_status tick_clock m1_banana m1_stored =
    (mkWorld ([] ++ set_status (BStr "banana") (DateAt 2) m1_record :: []) 1 3,
     Ok 200%nat).
Proof.
  assert (H1 : truthy (get m1_banana "id") = true) by reflexivity.
  assert (H2 : to_bson (get m1_banana "id") = Some (BStr "m1")) by reflexivity.
  assert (H3 : to_bson (get m1_banana "status") = Some (BStr "banana")) by reflexivity.
  assert (H4 : col m1_stored = [] ++ m1_record :: []) by reflexivity.
  assert (H5 : forall y, In y (@nil doc) -> by_either_id (BStr "m1") y = false)
    by (intros y []).
  assert (H6 : by_either_id (BStr "m1") m1_record = true) by reflexivity.
  split; [exact H1 |]. split; [exact H4 |]. split; [exact H6 |].
  split.
  { simpl. intros [H | [H | [H | [H | []]]]]; discriminate H. }
  exact (proj1 (proj2 (status_is_stored_verbatim tick_clock m1_banana (BStr "m1")
                         (BStr "banana") m1_stored [] m1_record [] H1 H2 H3 H4 H5 H6))
           eq_refl).
Defined.

End StatusProps.

(* ===================================================================== *)
(** ** Properties of the server *)
(* ===================================================================== *)

Module ServerProps.
Import JS Mongo Effects Ingest Resolver Server Spec.
Import StoreFacts RunFacts Examples.

(** *** Sorting keeps the elements *)

Lemma In_insert_sorted {A : Type} (le : A -> A -> bool) (x y : A) (l : list A) :
  In x (insert_sorted le y l) <-> x = y \/ In x l.
Proof.
  induction l as [| z l IH]; simpl.
  - intuition congruence.
  - destruct (le y z); simpl; [intuition congruence |].
    rewrite IH. intuition congruence.
Qed.

Lemma In_sort_by {A : Type} (le : A -> A -> bool) (x : A) (l : list A) :
  In x (sort_by le l) <-> In x l.
Proof.
  unfold sort_by. induction l as [| y l IH]; simpl; [reflexivity |].
  rewrite In_insert_sorted, IH. intuition congruence.
Qed.

(** *** The unread count of a group *)


Lemma add_to_groups_ids (k : bson) (d : doc) (gs : list Chat.t) :
  In k (map Chat._id (add_to_groups d gs)) <->
  k = group_key d \/ In k (map Chat._id gs).
Proof.
  induction gs as [| g gs IH]; simpl.
  - intuition congruence.
  - destruct (bson_eqb (Chat._id g) (group_key d)) eqn:E; simpl.
    + apply bson_eqb_eq in E. intuition congruence.
    + rewrite IH. intuition congruence.
Qed.

(** The groups are the keys of the input. *)
Lemma group_ids (k : bson) (input : list doc) :
  In k (map Chat._id (group input)) <-> In k (map group_key input).
Proof.
  unfold group.
  assert (G : forall gs,
    In k (map Chat._id (fold_left (fun gs d => add_to_groups d gs) input gs)) <->
    In k (map group_key input) \/ In k (map Chat._id gs)).
  { induction input as [| d input IH]; simpl; intro gs; [intuition |].
    rewrite IH, add_to_groups_ids. intuition congruence. }
  rewrite G. simpl. intuition.
Qed.


(** *** The chat list does not read [createdAt] *)

Lemma insert_sorted_map {A : Type} (le : A -> A -> bool) (f : A -> A) (x : A)
    (l : list A) :
  (forall a b, le (f a) (f b) = le a b) ->
  insert_sorted le (f x) (map f l) = map f (insert_sorted le x l).
Proof.
  intro H. induction l as [| y l IH]; simpl; [reflexivity |].
  rewrite H. destruct (le x y); simpl; [reflexivity |]. rewrite IH. reflexivity.
Qed.

Lemma sort_by_map {A : Type} (le : A -> A -> bool) (f : A -> A) (l : list A) :
  (forall a b, le (f a) (f b) = le a b) ->
  sort_by le (map f l) = map f (sort_by le l).
Proof.
  intro H. unfold sort_by. induction l as [| x l IH]; simpl; [reflexivity |].
  rewrite IH. apply insert_sorted_map; exact H.
Qed.

Lemma add_to_groups_recreated (g : doc -> Date) (d : doc) (gs : list Chat.t) :
  add_to_groups (recreated g d) gs = add_to_groups d gs.
Proof.
  induction gs as [| g0 gs IH]; simpl; [reflexivity |].
  rewrite IH. reflexivity.
Qed.

Lemma group_recreated (g : doc -> Date) (input : list doc) :
  group (map (recreated g) input) = group input.
Proof.
  unfold group. generalize (@nil Chat.t).
  induction input as [| d input IH]; intro gs; simpl; [reflexivity |].
  rewrite add_to_groups_recreated. apply IH.
Qed.

Lemma chats_recreated (invalid_time : Z) (g : doc -> Date) (c : collection) :
  chats invalid_time (map (recreated g) c) = chats invalid_time c.
Proof.
  unfold chats. rewrite sort_by_map by reflexivity.
  rewrite group_recreated. reflexivity.
Qed.

(** C5 fails on the code where two documents of a conversation have the
    same [timestamp]: the pipeline sorts by [timestamp] alone and the group
    takes its fields from the document that was stored first, while
    GET /api/messages/:wa_id, which sorts by [timestamp] then [createdAt],
    has the other one as the most recent.  Whatever [createdAt] the
    documents have, the chat list is the same. *)
Lemma chats_tie_ignores_createdAt :
  process_payload (Some "biz") tick_clock same_second empty_world
    = (mkWorld [a1_record; a2_record] 2 4, Ok tt) /\
  timestamp (content a1_record) = timestamp (content a2_record) /\
  createdAt (content a1_record) = DateAt 0 /\
  createdAt (content a2_record) = DateAt 2 /\
  chats 0 [a1_record; a2_record]
    = [Chat.mk (BStr "111") (BStr "111") (BStr "111") (BStr "first")
         (DateAt 1000000) 2] /\
  find_by_wa_id 0 "111" [a1_record; a2_record] = [a1_record; a2_record] /\
  (forall invalid_time g c,
      chats invalid_time (map (recreated g) c) = chats invalid_time c).
Proof.
  split; [reflexivity |]. split; [reflexivity |]. split; [reflexivity |].
  split; [reflexivity |]. split; [reflexivity |]. split; [reflexivity |].
  intros. apply chats_recreated.
Qed.

(** C6.  The listener emits one event for an insert, ['new_message'] with
    the [wa_id] and the document, and one for an update or a replace,
    ['message_status'] with the [wa_id], the message id, the status and the
    document; [io.emit] hands it to every connected socket.  The message id
    is the [msg_id] of the document; when that is missing, null, false, 0
    or the empty string, it is the [meta_msg_id]; when that is so too, it
    is the [_id].  The status is the status of the document, and null when
    that is missing, null, false, 0 or the empty string.  A change of
    another kind is not a mutation of the feed and yields no event. *)
Theorem change_yields_one_event (ch : change) (d : doc) (io : sockets) :
  fullDocument ch = Some d ->
  (operationType ch = "insert" ->
   on_change ch = Ok [new_message (wa_id (content d)) d] /\
   deliver ch io
     = Ok (map (fun received => received ++ [new_message (wa_id (content d)) d]) io)) /\
  (operationType ch = "update" \/ operationType ch = "replace" ->
   exists ref st,
     on_change ch = Ok [message_status (wa_id (content d)) ref st d] /\
     deliver ch io
       = Ok (map (fun received =>
                    received ++ [message_status (wa_id (content d)) ref st d]) io) /\
     (truthy_field (msg_id (content d)) = true -> ref = Field (msg_id (content d))) /\
     (truthy_field (msg_id (content d)) = false ->
      truthy_field (meta_msg_id (content d)) = true ->
      ref = Field (meta_msg_id (content d))) /\
     (truthy_field (msg_id (content d)) = false ->
      truthy_field (meta_msg_id (content d)) = false ->
      ref = ObjectId (_id d)) /\
     (truthy_field (status (content d)) = true -> st = status (content d)) /\
     (truthy_field (status (content d)) = false -> st = BNull)) /\
  (forall f,
      truthy_field f = false <->
      f = BMissing \/ f = BNull \/ f = BBool false \/ f = BNum 0 \/ f = BStr "") /\
  (operationType ch <> "insert" -> operationType ch <> "update" ->
   operationType ch <> "replace" -> on_change ch = Ok []).
Proof.
  intro Hd. split; [| split; [| split]].
  - intro Hop. unfold deliver, on_change. rewrite Hop, Hd. simpl. split; reflexivity.
  - intro Hop. exists (message_ref_of d).
    exists (if truthy_field (status (content d)) then status (content d) else BNull).
    assert (E : on_change ch
                = Ok [message_status (wa_id (content d)) (message_ref_of d)
                        (if truthy_field (status (content d))
                         then status (content d) else BNull) d]).
    { unfold on_change. rewrite Hd.
      destruct Hop as [-> | ->]; reflexivity. }
    split; [exact E |]. split; [unfold deliver; rewrite E; reflexivity |].
    unfold message_ref_of.
    split; [intro T; rewrite T; reflexivity |].
    split; [intros T1 T2; rewrite T1, T2; reflexivity |].
    split; [intros T1 T2; rewrite T1, T2; reflexivity |].
    split; intro T; rewrite T; reflexivity.
  - intro f. split.
    + destruct f as [ | | [|] | n | s | items]; simpl; intro T;
        try discriminate; auto.
      * apply negb_false_iff, Z.eqb_eq in T. subst n. auto.
      * apply negb_false_iff, String.eqb_eq in T. subst s. auto 6.
    + intros [-> | [-> | [-> | [-> | ->]]]]; reflexivity.
  - intros N1 N2 N3. unfold on_change.
    apply String.eqb_neq in N1, N2, N3. rewrite N1, N2, N3. reflexivity.
Qed.

Lemma change_yields_one_event_witness :
  fullDocument (mkChange "insert" (Some m1_record)) = Some m1_record /\
  operationType (mkChange "insert" (Some m1_record)) = "insert"%string /\
  deliver (mkChange "insert" (Some m1_record)) [[]; []]
    = Ok (map (fun received => received ++ [new_message (BStr "111") m1_record])
            [[]; []]).
Proof.
  split; [reflexivity |]. split; [reflexivity |].
  exact (proj2 (proj1 (change_yields_one_event (mkChange "insert" (Some m1_record))
                         m1_record [[]; []] eq_refl) eq_refl)).
Defined.

End ServerProps.

(* ===================================================================== *)
(** ** Further properties of the ingest *)
(* ===================================================================== *)

Module RunProps.
Import JS Mongo Effects Ingest Resolver Spec Further.
Import StoreFacts RunFacts PatchFacts TraceFacts RerunFacts MessageProps Examples.
Local Open Scope monad_scope.

Section Runs.
Variable BUSINESS_NUMBER : option string.
Variable clock : nat -> Z.

Lemma process_file_trace (parsed : option value) :
  process_file BUSINESS_NUMBER clock parsed
  == exec_trace clock (file_items BUSINESS_NUMBER parsed).
Proof.
  destruct parsed as [v |]; simpl; [| intro w; reflexivity].
  unfold each_if_array. destruct (as_array v) as [payloads |].
  - apply for_each_trace. apply process_payload_trace.
  - intro w; reflexivity.
Qed.

(** The loops of [run] do what executing the items of the files does. *)
Lemma run_trace (files : list (option value)) :
  run BUSINESS_NUMBER clock files
  == exec_trace clock (run_items BUSINESS_NUMBER files).
Proof. apply for_each_trace. apply process_file_trace. Qed.

Lemma exec_trace_world (t : trace) (w : world) :
  fst (exec_trace clock t w) = fst (exec_items clock (fst t) w).
Proof.
  unfold exec_trace, bind.
  destruct (exec_items clock (fst t) w) as [w' [[] | e]]; [| reflexivity].
  destruct (snd t); reflexivity.
Qed.
End Runs.

(** X1.  A file that does not parse, or that does not hold an array, is
    passed over: the run does what it does on the other files. *)
Theorem run_skips_unreadable_files
    (BUSINESS_NUMBER : option string) (clock : nat -> Z)
    (files : list (option value)) (w : world) :
  run BUSINESS_NUMBER clock files w
  = run BUSINESS_NUMBER clock (filter holds_array files) w.
Proof.
  revert w. induction files as [| f files IH]; intro w; [reflexivity |].
  unfold run in *. simpl.
  destruct f as [[| | b | n | s | items | props] |]; simpl;
    try (unfold bind at 1; simpl; apply IH).
  unfold bind.
  destruct (for_each items (process_payload BUSINESS_NUMBER clock) w) as [w' [[] | e]];
    [apply IH | reflexivity].
Qed.

(** X2.  A run that reached its end can be run again on the same files: the
    second run reaches its end too, inserts no document and changes no field
    but [status] and [updatedAt]. *)
Theorem run_twice_inserts_nothing
    (BUSINESS_NUMBER : option string) (clock : nat -> Z)
    (files : list (option value)) (w0 w1 : world) :
  run BUSINESS_NUMBER clock files w0 = (w1, Ok tt) ->
  exists w2,
    run BUSINESS_NUMBER clock files w1 = (w2, Ok tt) /\
    List.length (col w2) = List.length (col w1) /\
    next_oid w2 = next_oid w1 /\
    Forall2 same_except_status (col w1) (col w2).
Proof.
  intro Run1. rewrite run_trace in Run1.
  apply exec_trace_ok in Run1. destruct Run1 as [Hend Run1].
  destruct (exec_items_twice clock _ w0 w1 Run1) as [w2 [Run2 [N [F _]]]].
  exists w2.
  split. { rewrite run_trace, exec_trace_of_items by exact Hend. exact Run2. }
  split; [symmetry; eapply all2_length; exact F |].
  split; assumption.
Qed.

Lemma run_twice_inserts_nothing_witness :
  run (Some "biz") tick_clock [Some (VArr [flat_m1]); None] empty_world
    = (m1_stored, Ok tt) /\
  exists w2,
    run (Some "biz") tick_clock [Some (VArr [flat_m1]); None] m1_stored
      = (w2, Ok tt) /\
    List.length (col w2) = List.length (col m1_stored).
Proof.
  assert (H : run (Some "biz") tick_clock [Some (VArr [flat_m1]); None] empty_world
              = (m1_stored, Ok tt)) by reflexivity.
  split; [exact H |].
  destruct (run_twice_inserts_nothing (Some "biz") tick_clock _ _ _ H)
    as [w2 [H1 [H2 _]]].
  exists w2. split; [exact H1 | exact H2].
Defined.

(** X3.  Whatever the files hold and however the run ends, it keeps the
    documents it finds in their places, changes at most their [status] and
    [updatedAt], and leaves [msg_id] unique if it was. *)
Theorem run_keeps_the_collection
    (BUSINESS_NUMBER : option string) (clock : nat -> Z)
    (files : list (option value)) (w : world) :
  grown (col w) (col (fst (run BUSINESS_NUMBER clock files w))) /\
  (unique_msg_id (col w) ->
   unique_msg_id (col (fst (run BUSINESS_NUMBER clock files w)))).
Proof.
  rewrite run_trace, exec_trace_world.
  destruct (exec_items clock (fst (run_items BUSINESS_NUMBER files)) w)
    as [w' r] eqn:E; simpl.
  split.
  - eapply exec_items_grown; exact E.
  - intro U. eapply exec_items_unique; eassumption.
Qed.



(** X5.  A status item processed a second time changes no more than
    [updatedAt]. *)
Theorem status_patch_twice
    (clock : nat -> Z) (s : value) (w w1 : world) :
  process_status clock s w = (w1, Ok tt) ->
  exists w2,
    process_status clock s w1 = (w2, Ok tt) /\
    Forall2 same_except_updatedAt (col w1) (col w2).
Proof.
  intro Run1. rewrite process_status_item in *.
  destruct (nullish s); [discriminate |].
  set (it := StatusItem (or_else (get s "id") (get s "meta_msg_id")) (get s "status")) in *.
  assert (R1 : exec_items clock [it] w = (w1, Ok tt)).
  { rewrite exec_items_cons. rewrite Run1. reflexivity. }
  destruct (exec_items_twice clock [it] w w1 R1) as [w2 [R2 [_ [_ F]]]].
  exists w2. split; [| apply F; reflexivity].
  rewrite exec_items_cons in R2.
  destruct (exec_item clock it w1) as [w' [[] | e]]; [| discriminate].
  inversion R2; subst. reflexivity.
Qed.

Lemma status_patch_twice_witness :
  process_status tick_clock m1_read m1_stored
    = (mkWorld [set_status (BStr "read") (DateAt 2) m1_record] 1 3, Ok tt) /\
  exists w2,
    process_status tick_clock m1_read
      (mkWorld [set_status (BStr "read") (DateAt 2) m1_record] 1 3) = (w2, Ok tt) /\
    Forall2 same_except_updatedAt
      [set_status (BStr "read") (DateAt 2) m1_record] (col w2).
Proof.
  assert (H : process_status tick_clock m1_read m1_stored
              = (mkWorld [set_status (BStr "read") (DateAt 2) m1_record] 1 3, Ok tt))
    by reflexivity.
  split; [exact H |].
  exact (status_patch_twice tick_clock m1_read m1_stored _ H).
Defined.

(** X6.  The statuses are not ordered: of two status items for the same id
    the later one stays, whatever the two statuses are. *)
Theorem later_status_overwrites
    (clock : nat -> Z) (s1 s2 : value) (q st1 st2 : bson) (w : world)
    (before : collection) (d : doc) (after : collection) :
  nullish s1 = false -> nullish s2 = false ->
  to_bson (or_else (get s1 "id") (get s1 "meta_msg_id")) = Some q ->
  to_bson (or_else (get s2 "id") (get s2 "meta_msg_id")) = Some q ->
  to_bson (get s1 "status") = Some st1 ->
  to_bson (get s2 "status") = Some st2 ->
  col w = before ++ d :: after ->
  (forall x, In x before -> by_either_id q x = false) ->
  by_either_id q d = true ->
  for_each [s1; s2] (process_status clock) w =
    (mkWorld (before ++ set_status st2 (DateAt (clock (S (ticks w)))) d :: after)
       (next_oid w) (S (S (ticks w))),
     Ok tt).
Proof.
  intros N1 N2 Q1 Q2 S1 S2 Hcol Hbefore Hd.
  simpl. unfold bind.
  rewrite process_status_item, N1, (exec_status clock _ _ q st1 w Q1 S1), Hcol.
  rewrite updateOne_first by assumption. simpl.
  rewrite process_status_item, N2.
  rewrite (exec_status clock _ _ q st2 _ Q2 S2). simpl.
  rewrite updateOne_first; [reflexivity | exact Hbefore |].
  rewrite <- (ses_by_either_id q d _ (set_status_ses st1 _ d)). exact Hd.
Qed.

Lemma later_status_overwrites_witness :
  for_each [m1_read; VObj [("id", VStr "m1"); ("status", VStr "delivered")]]
    (process_status tick_clock) m1_stored =
    (mkWorld ([] ++ set_status (BStr "delivered") (DateAt 3) m1_record :: []) 1 4,
     Ok tt).
Proof.
  apply (later_status_overwrites tick_clock m1_read
           (VObj [("id", VStr "m1"); ("status", VStr "delivered")])
           (BStr "m1") (BStr "read") (BStr "delivered") m1_stored [] m1_record []);
    try reflexivity.
  intros x [].
Defined.

End RunProps.

(* ===================================================================== *)
(** ** Numbers written in decimal: timestamps and local ids *)
(* ===================================================================== *)

Module DecimalProps.
Import JS Mongo Effects Ingest Server Writes Resolver Spec Further.
Import Examples.

Lemma digits_value_pos (d : Decimal.uint) (p : positive) :
  digits_value d (Z.pos p) = Z.pos (Pos.of_uint_acc d p).
Proof.
  revert p. induction d; intro p; cbn [digits_value Pos.of_uint_acc];
    try reflexivity;
    match goal with
    | |- digits_value _ ?a = Z.pos (Pos.of_uint_acc _ ?b) =>
        replace a with (Z.pos b) by lia; apply IHd
    end.
Qed.

Lemma digits_value_zero (d : Decimal.uint) :
  digits_value d 0 = Z.of_N (Pos.of_uint d).
Proof.
  induction d; simpl; try reflexivity; try exact IHd; apply digits_value_pos.
Qed.

Lemma read_digits_decimal (d : Decimal.uint) (a : Z) :
  read_digits 10 (NilEmpty.string_of_uint d) (Some a) = Some (digits_value d a).
Proof.
  revert a. induction d; intro a; simpl; try reflexivity; apply IHd.
Qed.

Lemma read_digits_first (d : Decimal.uint) :
  d <> Decimal.Nil ->
  read_digits 10 (NilEmpty.string_of_uint d) None = Some (digits_value d 0).
Proof.
  intro H. destruct d; [congruence | ..]; simpl; apply read_digits_decimal.
Qed.

Lemma parseInt_magnitude (d : Decimal.uint) :
  d <> Decimal.Nil ->
  match strip_hex_prefix (NilEmpty.string_of_uint d) with
  | Some rest => read_digits 16 rest None
  | None => read_digits 10 (NilEmpty.string_of_uint d) None
  end = Some (digits_value d 0).
Proof.
  intro H.
  assert (E : strip_hex_prefix (NilEmpty.string_of_uint d) = None).
  { destruct d; try reflexivity. destruct d; reflexivity. }
  rewrite E. apply read_digits_first; exact H.
Qed.

(** A string that begins with an ASCII character that is no white space
    has no white space to skip. *)
Lemma skip_ws_ascii (c : ascii) (rest : string) :
  (nat_of_ascii c < 128)%nat -> is_ws c = false ->
  skip_ws (String c rest) = String c rest.
Proof.
  intros L W.
  assert (W2 : forall c2, is_ws2 c c2 = false).
  { intro c2. unfold is_ws2.
    destruct (Nat.eqb_spec (nat_of_ascii c) 194); [lia | reflexivity]. }
  assert (W3 : forall c2 c3, is_ws3 c c2 c3 = false).
  { intros c2 c3. unfold is_ws3.
    destruct (Nat.eqb_spec (nat_of_ascii c) 225); [lia |].
    destruct (Nat.eqb_spec (nat_of_ascii c) 226); [lia |].
    destruct (Nat.eqb_spec (nat_of_ascii c) 227); [lia |].
    destruct (Nat.eqb_spec (nat_of_ascii c) 239); [lia | reflexivity]. }
  cbn [skip_ws]. rewrite W.
  destruct rest as [| c2 [| c3 rest]]; try reflexivity.
  - rewrite W2. reflexivity.
  - rewrite W2, W3. reflexivity.
Qed.

Lemma skip_ws_digits (d : Decimal.uint) :
  skip_ws (NilEmpty.string_of_uint d) = NilEmpty.string_of_uint d.
Proof.
  destruct d; [reflexivity | ..]; simpl NilEmpty.string_of_uint;
    apply skip_ws_ascii; try reflexivity; apply Nat.ltb_lt; reflexivity.
Qed.

Lemma parseInt_string_digits (d : Decimal.uint) :
  d <> Decimal.Nil ->
  parseInt_string (NilEmpty.string_of_uint d) = Some (digits_value d 0) /\
  parseInt_string (String "-" (NilEmpty.string_of_uint d)) = Some (- digits_value d 0).
Proof.
  intro H. pose proof (parseInt_magnitude d H) as M.
  split.
  - unfold parseInt_string. rewrite skip_ws_digits.
    destruct d; try congruence; simpl NilEmpty.string_of_uint in *; cbv iota beta;
      rewrite M; reflexivity.
  - unfold parseInt_string.
    rewrite skip_ws_ascii by (try reflexivity; apply Nat.ltb_lt; reflexivity).
    cbv iota beta. rewrite M. reflexivity.
Qed.

Lemma to_decimal_pos (p : positive) :
  to_decimal (Z.pos p) = NilEmpty.string_of_uint (Pos.to_uint p) /\
  to_decimal (Z.neg p) = String "-" (NilEmpty.string_of_uint (Pos.to_uint p)).
Proof.
  unfold to_decimal; simpl. unfold NilZero.string_of_uint.
  pose proof (Unsigned.to_uint_nonnil p) as H.
  destruct (Pos.to_uint p); [congruence | ..]; split; reflexivity.
Qed.

(** [parseInt] reads back an integer written in decimal. *)
Lemma parseInt_to_decimal (n : Z) : parseInt_string (to_decimal n) = Some n.
Proof.
  destruct n as [| p | p].
  - reflexivity.
  - rewrite (proj1 (to_decimal_pos p)).
    rewrite (proj1 (parseInt_string_digits _ (Unsigned.to_uint_nonnil p))).
    rewrite digits_value_zero, Unsigned.of_to. reflexivity.
  - rewrite (proj2 (to_decimal_pos p)).
    rewrite (proj2 (parseInt_string_digits _ (Unsigned.to_uint_nonnil p))).
    rewrite digits_value_zero, Unsigned.of_to. reflexivity.
Qed.

Lemma first_digit_of (e : nat) : forall fuel d r,
  1 <= d <= 9 -> 0 <= r < 10 ^ Z.of_nat e -> (e <= fuel)%nat ->
  first_digit fuel (d * 10 ^ Z.of_nat e + r) = d.
Proof.
  induction e as [| e IH]; intros fuel d r D R F.
  - simpl in R. assert (r = 0) by lia. subst r.
    replace (d * 10 ^ Z.of_nat 0 + 0) with d by (simpl; lia).
    destruct fuel; simpl; [reflexivity |].
    destruct (Z.ltb_spec d 10); [reflexivity | lia].
  - destruct fuel as [| fuel]; [lia |]. cbn [first_digit].
    rewrite Nat2Z.inj_succ, Z.pow_succ_r in * by lia.
    assert (P : 0 < 10 ^ Z.of_nat e) by (apply Z.pow_pos_nonneg; lia).
    destruct (Z.ltb_spec (d * (10 * 10 ^ Z.of_nat e) + r) 10); [nia |].
    replace (d * (10 * 10 ^ Z.of_nat e) + r) with (r + (d * 10 ^ Z.of_nat e) * 10) by lia.
    rewrite Z.div_add by lia.
    replace (r / 10 + d * 10 ^ Z.of_nat e) with (d * 10 ^ Z.of_nat e + r / 10) by lia.
    apply IH; [exact D | | lia].
    split; [apply Z.div_pos; lia |].
    apply Z.div_lt_upper_bound; lia.
Qed.

(** The first digit of a number with [e] more digits after the digit [d]. *)
Lemma leading_digit_of (d e r : Z) :
  1 <= d <= 9 -> 0 <= e -> 0 <= r < 10 ^ e ->
  leading_digit (d * 10 ^ e + r) = d /\ leading_digit (- (d * 10 ^ e + r)) = d.
Proof.
  intros D E R.
  assert (P : 0 < 10 ^ e) by (apply Z.pow_pos_nonneg; lia).
  assert (N : 0 < d * 10 ^ e + r) by nia.
  assert (L : leading_digit (d * 10 ^ e + r) = d).
  { unfold leading_digit. rewrite Z.abs_eq by lia.
    rewrite <- (Z2Nat.id e) at 2 by lia.
    apply first_digit_of; [exact D | rewrite Z2Nat.id by lia; exact R |].
    apply Z2Nat.inj_le; [lia | apply Z.log2_nonneg |].
    apply Z.log2_le_pow2; [lia |].
    assert (2 ^ e <= 10 ^ e) by (apply Z.pow_le_mono_l; lia). nia. }
  split; [exact L |].
  unfold leading_digit in *. rewrite Z.abs_opp. exact L.
Qed.

Lemma parseInt_number_large (d e r : Z) :
  1 <= d <= 9 -> 21 <= e -> 0 <= r < 10 ^ e ->
  parseInt_number (d * 10 ^ e + r) = d /\
  parseInt_number (- (d * 10 ^ e + r)) = - d.
Proof.
  intros D E R.
  assert (P : 10 ^ 21 <= 10 ^ e) by (apply Z.pow_le_mono_r; lia).
  assert (B : 10 ^ 21 <= d * 10 ^ e + r) by nia.
  destruct (leading_digit_of d e r D ltac:(lia) R) as [L1 L2].
  unfold parseInt_number. rewrite L1, L2. split.
  - destruct (Z.ltb_spec (Z.abs (d * 10 ^ e + r)) (10 ^ 21)); [lia |].
    rewrite Z.sgn_pos by lia. lia.
  - destruct (Z.ltb_spec (Z.abs (- (d * 10 ^ e + r))) (10 ^ 21)); [lia |].
    rewrite Z.sgn_neg by lia. lia.
Qed.

(** X7.  A timestamp that gives a number of seconds [n], as a string of
    decimal digits or as a number below 1e21 in absolute value, makes the
    [Date] of [n * 1000] ms after the epoch, which is stored as it is, as
    long as this is a time a [Date] can hold (at most 8.64e15 ms from the
    epoch); beyond that the [Date] is invalid and what is stored is the
    epoch.  A number from 1e21 on is printed with an exponent before
    [parseInt] reads it: only its first digit [d] is read, and the time is
    [d * 1000] ms from the epoch. *)
Theorem timestamp_is_seconds (m : value) (n : Z) :
  (get m "timestamp" = VStr (to_decimal n)
   \/ (get m "timestamp" = VNum n /\ Z.abs n < 10 ^ 21) ->
   (Z.abs (n * 1000) <= MAX_TIME ->
    message_time m = DateAt (n * 1000) /\
    stored_date (message_time m) = DateAt (n * 1000)) /\
   (MAX_TIME < Z.abs (n * 1000) ->
    message_time m = InvalidDate /\
    stored_date (message_time m) = DateAt 0)) /\
  (forall d e r,
      1 <= d <= 9 -> 21 <= e -> 0 <= r < 10 ^ e ->
      (n = d * 10 ^ e + r -> get m "timestamp" = VNum n ->
       stored_date (message_time m) = DateAt (d * 1000)) /\
      (n = - (d * 10 ^ e + r) -> get m "timestamp" = VNum n ->
       stored_date (message_time m) = DateAt (- d * 1000))).
Proof.
  split.
  - intro H.
    assert (P : parseInt (get m "timestamp") = Some n).
    { destruct H as [-> | [-> B]]; simpl; [apply parseInt_to_decimal |].
      unfold parseInt_number. apply Z.ltb_lt in B. rewrite B. reflexivity. }
    unfold message_time, new_Date. rewrite P. simpl option_map. cbv iota beta.
    split; intro R.
    + apply Z.leb_le in R. rewrite R. split; reflexivity.
    + apply Z.leb_gt in R. rewrite R. split; reflexivity.
  - intros d e r D E R.
    destruct (parseInt_number_large d e r D E R) as [P1 P2].
    split; intros -> G; unfold message_time, new_Date; rewrite G;
      cbn [parseInt option_map]; rewrite ?P1, ?P2.
    + destruct (Z.leb_spec (Z.abs (d * 1000)) MAX_TIME) as [_ | B];
        [reflexivity | unfold MAX_TIME in B; lia].
    + destruct (Z.leb_spec (Z.abs (- d * 1000)) MAX_TIME) as [_ | B];
        [reflexivity | unfold MAX_TIME in B; lia].
Qed.

Lemma timestamp_is_seconds_witness :
  get m1 "timestamp" = VStr (to_decimal 1000) /\
  Z.abs (1000 * 1000) <= MAX_TIME /\
  message_time m1 = DateAt (1000 * 1000).
Proof.
  assert (H : get m1 "timestamp" = VStr (to_decimal 1000)) by reflexivity.
  assert (R : Z.abs (1000 * 1000) <= MAX_TIME) by (unfold MAX_TIME; lia).
  split; [exact H |]. split; [exact R |].
  exact (proj1 (proj1 (proj1 (timestamp_is_seconds m1 1000) (or_introl H)) R)).
Defined.

Lemma to_decimal_inj (n n' : Z) : to_decimal n = to_decimal n' -> n = n'.
Proof.
  intro H. pose proof (parseInt_to_decimal n) as P.
  rewrite H, parseInt_to_decimal in P. congruence.
Qed.

Lemma no_dash_digits (d : Decimal.uint) : no_dash (NilEmpty.string_of_uint d) = true.
Proof. induction d; simpl; try reflexivity; exact IHd. Qed.

Lemma to_decimal_no_dash (n : Z) : 0 <= n -> no_dash (to_decimal n) = true.
Proof.
  destruct n as [| p | p]; intro H.
  - reflexivity.
  - rewrite (proj1 (to_decimal_pos p)). apply no_dash_digits.
  - lia.
Qed.

Lemma no_dash_app_dash (a b : string) : no_dash (a ++ String "-" b) = false.
Proof.
  induction a as [| c a IH]; simpl; [reflexivity |].
  rewrite IH. apply andb_false_r.
Qed.

(** Two strings cut at their last ['-']. *)
Lemma split_at_last_dash (a a' b b' : string) :
  no_dash b = true -> no_dash b' = true ->
  (a ++ String "-" b = a' ++ String "-" b')%string -> a = a' /\ b = b'.
Proof.
  revert a'. induction a as [| c a IH]; intros [| c' a'] Hb Hb' E; simpl in E.
  - inversion E. split; reflexivity.
  - inversion E as [[Hc Hrest]]. rewrite Hrest, no_dash_app_dash in Hb. discriminate.
  - inversion E as [[Hc Hrest]]. rewrite <- Hrest, no_dash_app_dash in Hb'. discriminate.
  - inversion E as [[Hc Hrest]].
    destruct (IH a' Hb Hb' Hrest) as [-> ->]. split; reflexivity.
Qed.

(** X8.  Local message ids tell their time and their random number apart:
    two calls of [genLocalMsgId] give the same id only at the same clock
    reading with the same random number. *)
Theorem local_ids_differ (ms rnd ms' rnd' : Z) :
  0 <= rnd -> 0 <= rnd' ->
  (genLocalMsgId ms rnd = genLocalMsgId ms' rnd' <-> ms = ms' /\ rnd = rnd').
Proof.
  intros R R'. split.
  - intro E. unfold genLocalMsgId in E.
    simpl in E. inversion E as [E'].
    apply split_at_last_dash in E'; try (apply to_decimal_no_dash; assumption).
    destruct E' as [A B]. split; apply to_decimal_inj; assumption.
  - intros [-> ->]. reflexivity.
Qed.

Lemma local_ids_differ_witness :
  0 <= 7 /\ 0 <= 999 /\
  genLocalMsgId 1700000000000 7 <> genLocalMsgId 1700000000000 999 /\
  genLocalMsgId 1700000000000 7 <> genLocalMsgId 1700000000001 7.
Proof.
  assert (R : 0 <= 7) by lia.
  assert (R' : 0 <= 999) by lia.
  split; [exact R |]. split; [exact R' |]. split.
  - intro E.
    destruct (proj1 (local_ids_differ 1700000000000 7 1700000000000 999 R R') E)
      as [_ H].
    discriminate H.
  - intro E.
    destruct (proj1 (local_ids_differ 1700000000000 7 1700000000001 7 R R) E)
      as [H _].
    discriminate H.
Defined.

End DecimalProps.

(* ===================================================================== *)
(** ** Further properties of the queries of the server *)
(* ===================================================================== *)

Module QueryProps.
Import JS Mongo Effects Ingest Resolver Server Writes Spec Further.
Import StoreFacts RunFacts ServerProps Examples.

(** *** The stable sort *)

Lemma insert_sorted_perm {A : Type} (le : A -> A -> bool) (x : A) (l : list A) :
  Permutation (insert_sorted le x l) (x :: l).
Proof.
  induction l as [| y l IH]; simpl; [apply Permutation_refl |].
  destruct (le x y); [apply Permutation_refl |].
  eapply perm_trans; [apply perm_skip; exact IH | apply perm_swap].
Qed.

Lemma sort_by_perm {A : Type} (le : A -> A -> bool) (l : list A) :
  Permutation (sort_by le l) l.
Proof.
  unfold sort_by. induction l as [| x l IH]; simpl; [apply perm_nil |].
  eapply perm_trans; [apply insert_sorted_perm | apply perm_skip; exact IH].
Qed.

Section Sorting.
Context {A : Type} (le : A -> A -> bool) (R : A -> A -> Prop).
Hypothesis le_R : forall a b, le a b = true -> R a b.
Hypothesis le_total : forall a b, le a b = false -> R b a.
Hypothesis R_trans : forall a b c, R a b -> R b c -> R a c.

Lemma insert_sorted_sorted (x : A) (l : list A) :
  StronglySorted R l -> StronglySorted R (insert_sorted le x l).
Proof.
  induction l as [| y l IH]; simpl; intro S.
  - constructor; constructor.
  - inversion S as [| ? ? S' F]; subst.
    destruct (le x y) eqn:E.
    + constructor; [exact S |]. constructor; [apply le_R; exact E |].
      eapply Forall_impl; [| exact F]. intros z Hz.
      eapply R_trans; [apply le_R; exact E | exact Hz].
    + constructor; [apply IH; exact S' |].
      apply Forall_forall. intros z Hz. apply In_insert_sorted in Hz.
      destruct Hz as [-> | Hz]; [apply le_total; exact E |].
      rewrite Forall_forall in F. apply F; exact Hz.
Qed.

Lemma sort_by_sorted (l : list A) : StronglySorted R (sort_by le l).
Proof.
  unfold sort_by. induction l as [| x l IH]; simpl; [constructor |].
  apply insert_sorted_sorted; exact IH.
Qed.
End Sorting.

Lemma sorted_after {A : Type} (R : A -> A -> Prop) (l1 : list A) (x : A) (l2 : list A) :
  StronglySorted R (l1 ++ x :: l2) -> Forall (R x) l2.
Proof.
  induction l1 as [| y l1 IH]; simpl; intro S; inversion S; subst; auto.
Qed.

Lemma find_first {A : Type} (f : A -> bool) (l : list A) (x : A) :
  List.find f l = Some x ->
  exists l1 l2, l = l1 ++ x :: l2 /\ f x = true /\ forall y, In y l1 -> f y = false.
Proof.
  induction l as [| y l IH]; simpl; [discriminate |].
  destruct (f y) eqn:E; intro H.
  - inversion H; subst. exists [], l. repeat split; [exact E | intros z []].
  - destruct (IH H) as [l1 [l2 [-> [Hx Hl1]]]].
    exists (y :: l1), l2. repeat split; [exact Hx |].
    intros z [<- | Hz]; [exact E | apply Hl1; exact Hz].
Qed.

Lemma oldest_first_sorted (invalid_time : Z) (l : list doc) :
  StronglySorted (message_before invalid_time) (sort_by (oldest_first invalid_time) l).
Proof.
  apply sort_by_sorted; unfold oldest_first, message_before.
  - intros a b H. apply orb_prop in H. destruct H as [H | H].
    + left. apply Z.ltb_lt; exact H.
    + apply andb_prop in H. destruct H as [H1 H2].
      apply Z.eqb_eq in H1. apply Z.leb_le in H2. right; split; assumption.
  - intros a b H. apply orb_false_elim in H. destruct H as [H1 H2].
    apply Z.ltb_ge in H1. apply andb_false_elim in H2.
    destruct H2 as [H2 | H2]; [apply Z.eqb_neq in H2 | apply Z.leb_gt in H2]; lia.
  - intros a b c H1 H2. lia.
Qed.

(** X9.  GET /api/messages/:wa_id answers with the documents whose [wa_id]
    is the requested string or an array with this string as an element, and
    with no other; each of them once, the oldest [timestamp] first and, for
    equal timestamps, the oldest [createdAt] first. *)
Theorem messages_are_listed_in_order
    (invalid_time : Z) (clock : nat -> Z) (wa : string) (w : world) :
  exists w' msgs,
    get_messages invalid_time clock wa w = (w', Ok msgs) /\
    Permutation msgs
      (filter (fun d => field_matches (BStr wa) (wa_id (content d))) (col w)) /\
    (forall d,
        In d msgs <->
        In d (col w) /\
        (wa_id (content d) = BStr wa
         \/ exists items, wa_id (content d) = BArr items /\ In (BStr wa) items)) /\
    StronglySorted (message_before invalid_time) msgs.
Proof.
  eexists. eexists. split; [reflexivity |].
  split; [apply sort_by_perm |]. split.
  - intro d. unfold find_by_wa_id. rewrite In_sort_by, filter_In.
    rewrite field_matches_string. reflexivity.
  - apply oldest_first_sorted.
Qed.

Lemma map_unchanged {A : Type} (f : A -> A) (l : list A) :
  (forall x, In x l -> f x = x) -> map f l = l.
Proof.
  induction l as [| x l IH]; simpl; intro H; [reflexivity |].
  rewrite H by (left; reflexivity). rewrite IH by (intros; apply H; right; assumption).
  reflexivity.
Qed.

(** X10.  Once GET /api/messages/:wa_id has marked a conversation, a second
    call changes nothing in the collection, [updatedAt] included.  In its
    answer every document whose [direction] is ['inbound'] (or an array with
    this element) has the status ['read'] or, when its status is an array,
    ['read'] among the elements of its status. *)
Theorem second_reading_changes_nothing
    (invalid_time : Z) (clock : nat -> Z) (wa : string) (w : world) :
  col (fst (get_messages invalid_time clock wa
              (fst (get_messages invalid_time clock wa w))))
  = col (fst (get_messages invalid_time clock wa w)) /\
  (forall d,
      In d (find_by_wa_id invalid_time wa
              (col (fst (get_messages invalid_time clock wa w)))) ->
      (direction (content d) = BStr "inbound"
       \/ exists items, direction (content d) = BArr items
                        /\ In (BStr "inbound") items) ->
      status (content d) = BStr "read"
      \/ exists items, status (content d) = BArr items /\ In (BStr "read") items).
Proof.
  simpl.
  set (mark := fun d => if unread_inbound_of wa d
                        then set_status (BStr "read") (DateAt (clock (ticks w))) d
                        else d).
  assert (M : forall d, unread_inbound_of wa (mark d) = false).
  { intro d. unfold mark. destruct (unread_inbound_of wa d) eqn:E; [| exact E].
    unfold unread_inbound_of. simpl. apply andb_false_r. }
  split.
  - apply map_unchanged. intros x Hx. apply in_map_iff in Hx.
    destruct Hx as [d [<- _]]. rewrite M. reflexivity.
  - intros d Hd Hdir. unfold find_by_wa_id in Hd.
    apply In_sort_by in Hd. apply filter_In in Hd. destruct Hd as [Hin Hwa].
    apply in_map_iff in Hin. destruct Hin as [d0 [<- _]].
    specialize (M d0). unfold unread_inbound_of in M.
    apply (proj2 (field_matches_string _ _)) in Hdir.
    rewrite Hwa, Hdir in M. cbn [andb] in M. apply negb_false_iff in M.
    apply field_matches_string in M. exact M.
Qed.

(** *** The groups of the chat list *)

Lemma find_snoc {A : Type} (f : A -> bool) (l : list A) (x : A) :
  List.find f (l ++ [x]) =
  match List.find f l with
  | Some y => Some y
  | None => if f x then Some x else None
  end.
Proof.
  induction l as [| y l IH]; simpl; [reflexivity |].
  destruct (f y); [reflexivity | exact IH].
Qed.

Lemma find_none_iff {A : Type} (f : A -> bool) (l : list A) :
  List.find f l = None <-> forall x, In x l -> f x = false.
Proof.
  induction l as [| y l IH]; simpl; [intuition |].
  destruct (f y) eqn:E.
  - split; [discriminate |]. intro H. rewrite (H y (or_introl eq_refl)) in E. discriminate.
  - rewrite IH. split; intro H.
    + intros x [<- | Hx]; [exact E | apply H; exact Hx].
    + intros x Hx. apply H. right; exact Hx.
Qed.

Lemma unread_in_snoc (k : bson) (l : list doc) (d : doc) :
  unread_in k (l ++ [d])
  = (unread_in k l + if in_group k d && is_unread d then 1 else 0)%nat.
Proof.
  unfold unread_in. rewrite filter_app, length_app. simpl.
  destruct (in_group k d && is_unread d); reflexivity.
Qed.

Lemma unread_in_none (k : bson) (l : list doc) :
  (forall x, In x l -> in_group k x = false) -> unread_in k l = 0%nat.
Proof.
  unfold unread_in. induction l as [| x l IH]; simpl; intro H; [reflexivity |].
  rewrite (H x (or_introl eq_refl)). simpl. apply IH. intros; apply H; right; assumption.
Qed.

Lemma in_group_iff (k : bson) (d : doc) : in_group k d = true <-> group_key d = k.
Proof. unfold in_group. apply bson_eqb_eq. Qed.

Lemma in_group_other (k : bson) (d : doc) : k <> group_key d -> in_group k d = false.
Proof.
  intro N. destruct (in_group k d) eqn:E; [| reflexivity].
  apply in_group_iff in E. congruence.
Qed.

Lemma summarizes_other (input : list doc) (g : Chat.t) (d : doc) :
  summarizes input g -> Chat._id g <> group_key d -> summarizes (input ++ [d]) g.
Proof.
  intros [d0 [F [A [B [C [D E]]]]]] N. exists d0.
  rewrite find_snoc, F, unread_in_snoc, (in_group_other _ _ N). simpl.
  rewrite Nat.add_0_r. repeat split; assumption.
Qed.

Lemma summarizes_same (input : list doc) (g : Chat.t) (d : doc) :
  summarizes input g -> Chat._id g = group_key d ->
  summarizes (input ++ [d])
    (Chat.mk (Chat._id g) (Chat.wa_id g) (Chat.name g) (Chat.lastMessage g)
       (Chat.lastTimestamp g) (Chat.unreadCount g + unread_cond d)).
Proof.
  intros [d0 [F [A [B [C [D E]]]]]] K. exists d0. simpl.
  rewrite find_snoc, F, unread_in_snoc.
  assert (G : in_group (Chat._id g) d = true) by (apply in_group_iff; congruence).
  rewrite G, E. repeat split; try assumption.
Qed.

Lemma summarizes_new (input : list doc) (d : doc) :
  (forall x, In x input -> in_group (group_key d) x = false) ->
  summarizes (input ++ [d])
    (Chat.mk (group_key d) (field_value (wa_id (content d)))
       (field_value (from (content d))) (field_value (text (content d)))
       (timestamp (content d)) (unread_cond d)).
Proof.
  intro H. exists d. simpl.
  assert (G : in_group (group_key d) d = true) by (apply in_group_iff; reflexivity).
  rewrite find_snoc, (proj2 (find_none_iff _ _) H), G.
  rewrite unread_in_snoc, (unread_in_none _ _ H), G. repeat split.
Qed.

Lemma add_to_groups_summarizes (input : list doc) (d : doc) (gs : list Chat.t) :
  NoDup (map Chat._id gs) ->
  Forall (summarizes input) gs ->
  ((forall g, In g gs -> Chat._id g <> group_key d) ->
   forall x, In x input -> in_group (group_key d) x = false) ->
  Forall (summarizes (input ++ [d])) (add_to_groups d gs).
Proof.
  induction gs as [| g gs IH]; simpl; intros ND F Hnew.
  - constructor; [| constructor]. apply summarizes_new. apply Hnew. intros g [].
  - inversion ND as [| ? ? Hnotin ND']; subst.
    inversion F as [| ? ? Fg Fgs]; subst.
    destruct (bson_eqb (Chat._id g) (group_key d)) eqn:E.
    + apply bson_eqb_eq in E. constructor; [apply summarizes_same; assumption |].
      rewrite Forall_forall in *. intros g' Hg'. apply summarizes_other; [apply Fgs; exact Hg' |].
      intro K. apply Hnotin. rewrite E, <- K. apply in_map; exact Hg'.
    + assert (N : Chat._id g <> group_key d).
      { intro K. rewrite K, bson_eqb_refl in E. discriminate. }
      constructor; [apply summarizes_other; assumption |].
      apply IH; try assumption.
      intros Hgs. apply Hnew. intros g' [<- | Hg']; [exact N | apply Hgs; exact Hg'].
Qed.

Lemma add_to_groups_nodup (d : doc) (gs : list Chat.t) :
  NoDup (map Chat._id gs) -> NoDup (map Chat._id (add_to_groups d gs)).
Proof.
  induction gs as [| g gs IH]; simpl; intro ND.
  - constructor; [intros [] | constructor].
  - inversion ND as [| ? ? Hnotin ND']; subst.
    destruct (bson_eqb (Chat._id g) (group_key d)) eqn:E; simpl.
    + exact ND.
    + constructor; [| apply IH; exact ND'].
      intro Hin. apply add_to_groups_ids in Hin. destruct Hin as [K | Hin].
      * rewrite K, bson_eqb_refl in E. discriminate.
      * contradiction.
Qed.

(** What [$group] has built after the documents [input]. *)
Lemma group_summarizes (input : list doc) :
  NoDup (map Chat._id (group input)) /\ Forall (summarizes input) (group input).
Proof.
  unfold group.
  assert (G : forall rest done gs,
    NoDup (map Chat._id gs) -> Forall (summarizes done) gs ->
    (forall k, In k (map Chat._id gs) <-> In k (map group_key done)) ->
    NoDup (map Chat._id (fold_left (fun gs d => add_to_groups d gs) rest gs)) /\
    Forall (summarizes (done ++ rest))
      (fold_left (fun gs d => add_to_groups d gs) rest gs)).
  { induction rest as [| d rest IH]; intros done gs ND F K; simpl.
    - rewrite app_nil_r. split; assumption.
    - replace (done ++ d :: rest) with ((done ++ [d]) ++ rest)
        by (rewrite <- app_assoc; reflexivity).
      apply IH.
      + apply add_to_groups_nodup; exact ND.
      + apply add_to_groups_summarizes; try assumption.
        intros Hgs x Hx. apply in_group_other. intro E.
        assert (Hk : In (group_key d) (map Chat._id gs)).
        { apply K. rewrite E. apply in_map; exact Hx. }
        apply in_map_iff in Hk. destruct Hk as [g [Hg Hin]].
        exact (Hgs g Hin Hg).
      + intro k. rewrite add_to_groups_ids, K, map_app, in_app_iff. simpl.
        intuition congruence. }
  apply (G input [] []); [constructor | constructor |].
  intro k; simpl; reflexivity.
Qed.

Lemma filter_perm {A : Type} (f : A -> bool) (l l' : list A) :
  Permutation l l' -> Permutation (filter f l) (filter f l').
Proof.
  intro P. induction P; simpl.
  - apply perm_nil.
  - destruct (f x); [apply perm_skip |]; exact IHP.
  - destruct (f x), (f y); try apply Permutation_refl. apply perm_swap.
  - eapply perm_trans; eassumption.
Qed.

Lemma unread_in_perm (k : bson) (l l' : list doc) :
  Permutation l l' -> unread_in k l = unread_in k l'.
Proof.
  intro P. unfold unread_in. apply Permutation_length. apply filter_perm; exact P.
Qed.

Lemma chats_summarize (invalid_time : Z) (c : collection) :
  Forall (summarizes (sort_by (newest_first invalid_time) c)) (chats invalid_time c).
Proof.
  apply Forall_forall. intros chat Hin. unfold chats in Hin. apply In_sort_by in Hin.
  destruct (group_summarizes (sort_by (newest_first invalid_time) c)) as [_ F].
  rewrite Forall_forall in F. apply F; exact Hin.
Qed.

(** X11.  The chat list has one entry for each conversation of the
    collection, and for nothing else. *)
Theorem chats_one_per_conversation (invalid_time : Z) (c : collection) :
  NoDup (map Chat._id (chats invalid_time c)) /\
  (forall k, In k (map Chat._id (chats invalid_time c))
             <-> exists d, In d c /\ group_key d = k).
Proof.
  split.
  - destruct (group_summarizes (sort_by (newest_first invalid_time) c)) as [ND _].
    eapply Permutation_NoDup; [| exact ND].
    apply Permutation_map. apply Permutation_sym. apply sort_by_perm.
  - intro k. unfold chats.
    assert (E : In k (map Chat._id
                        (sort_by (latest_chat_first invalid_time)
                           (group (sort_by (newest_first invalid_time) c))))
                <-> In k (map Chat._id (group (sort_by (newest_first invalid_time) c)))).
    { rewrite !in_map_iff. split; intros [g [Hg Hin]]; exists g; split; try assumption;
        apply In_sort_by in Hin || apply In_sort_by; exact Hin. }
    rewrite E, group_ids, in_map_iff.
    split; intros [d [Hd Hin]]; exists d.
    + apply In_sort_by in Hin. split; assumption.
    + split; [exact Hin | apply In_sort_by; exact Hd].
Qed.

(** X12.  The unread count of a chat is the number of documents of its
    conversation that are inbound and whose status is not ['read']. *)
Theorem chats_count_the_unread (invalid_time : Z) (c : collection) :
  Forall (fun chat => Chat.unreadCount chat = unread_in (Chat._id chat) c)
    (chats invalid_time c).
Proof.
  eapply Forall_impl; [| apply chats_summarize].
  intros chat [d [_ [_ [_ [_ [_ E]]]]]]. rewrite E.
  apply unread_in_perm. apply sort_by_perm.
Qed.

(** X13.  The chat list comes with the latest [lastTimestamp] first. *)
Theorem chats_are_latest_first (invalid_time : Z) (c : collection) :
  StronglySorted (chat_before invalid_time) (chats invalid_time c).
Proof.
  unfold chats. apply sort_by_sorted; unfold latest_chat_first, chat_before.
  - intros a b H. apply Z.leb_le; exact H.
  - intros a b H. apply Z.leb_gt in H. lia.
  - intros a b c0 H1 H2. lia.
Qed.

(** X14.  The name, the last message and the last timestamp of a chat come
    from one document of its conversation, and no document of the
    conversation has a later [timestamp]. *)
Theorem chats_show_a_latest_message (invalid_time : Z) (c : collection) :
  Forall
    (fun chat =>
       exists d,
         In d c /\ group_key d = Chat._id chat /\
         Chat.wa_id chat = field_value (wa_id (content d)) /\
         Chat.name chat = field_value (from (content d)) /\
         Chat.lastMessage chat = field_value (text (content d)) /\
         Chat.lastTimestamp chat = timestamp (content d) /\
         Forall (fun d' => group_key d' = Chat._id chat ->
                           time_of invalid_time (timestamp (content d'))
                           <= time_of invalid_time (timestamp (content d)))
           c)
    (chats invalid_time c).
Proof.
  eapply Forall_impl; [| apply chats_summarize].
  intros chat [d [F [A [B [C [D _]]]]]].
  apply find_first in F. destruct F as [l1 [l2 [E [G Hl1]]]].
  apply in_group_iff in G.
  assert (Hd : In d (sort_by (newest_first invalid_time) c)).
  { rewrite E. apply in_or_app. right; left; reflexivity. }
  exists d. split; [apply In_sort_by in Hd; exact Hd |].
  repeat (split; [assumption |]).
  apply Forall_forall. intros d' Hd' K.
  assert (S : StronglySorted (newer_first invalid_time)
                (sort_by (newest_first invalid_time) c)).
  { apply sort_by_sorted; unfold newest_first, newer_first.
    - intros a b H. apply Z.leb_le; exact H.
    - intros a b H. apply Z.leb_gt in H. lia.
    - intros a b c0 H1 H2. lia. }
  rewrite E in S.
  apply (In_sort_by (newest_first invalid_time)) in Hd'. rewrite E in Hd'.
  apply in_app_or in Hd'. destruct Hd' as [H1 | [<- | H2]].
  - apply Hl1 in H1. apply in_group_iff in K. congruence.
  - lia.
  - apply sorted_after in S. rewrite Forall_forall in S. apply (S d' H2).
Qed.

(** *** POST /api/status *)

(** X15.  POST /api/status for a request in which neither [id] nor
    [status] holds an object.  Without a body the destructuring throws a
    TypeError, outside the [try], and nothing is written.  With a body the
    answer is 400, 404 or 200 and never 500: 400 exactly when [id] or
    [status] is falsy, and then nothing is read or written; else 404
    exactly when no document is selected by the id, as [msg_id] or as
    [meta_msg_id]; else 200.  Unless the answer is 200 the collection is as
    before. *)
Theorem post_status_answers
    (clock : nat -> Z) (body : value) (q st : bson) (w : world) :
  to_bson (get body "id") = Some q ->
  to_bson (get body "status") = Some st ->
  (nullish body = true -> post_status clock body w = (w, Throw TypeError)) /\
  (nullish body = false ->
   exists w' code,
     post_status clock body w = (w', Ok code) /\
     (code = 400%nat \/ code = 404%nat \/ code = 200%nat) /\
     (code = 400%nat <->
      truthy (get body "id") = false \/ truthy (get body "status") = false) /\
     (code = 404%nat <->
      truthy (get body "id") = true /\ truthy (get body "status") = true /\
      orphan q (col w)) /\
     (code = 200%nat <->
      truthy (get body "id") = true /\ truthy (get body "status") = true /\
      exists d, In d (col w) /\ by_either_id q d = true) /\
     (code = 400%nat -> w' = w) /\
     (code <> 200%nat -> col w' = col w)).
Proof.
  intros Q S. split; intro N.
  { unfold post_status, bind, lift, prop. rewrite N. reflexivity. }
  unfold post_status, try_catch, bind, lift, prop. rewrite N. simpl.
  destruct (truthy (get body "id")) eqn:Tid; simpl.
  2: { exists w, 400%nat. split; [reflexivity |].
       repeat split; auto; try discriminate; intros [H _]; discriminate. }
  destruct (truthy (get body "status")) eqn:Tst; simpl.
  2: { exists w, 400%nat. split; [reflexivity |].
       repeat split; auto; try discriminate; intros [_ [H _]]; discriminate. }
  unfold updateOne_status, update; simpl. rewrite Q, S.
  destruct (existsb (by_either_id q) (col w)) eqn:E.
  - assert (F : exists before x after,
               col w = before ++ x :: after /\ by_either_id q x = true /\
               forall y, In y before -> by_either_id q y = false).
    { destruct (List.find (by_either_id q) (col w)) as [x |] eqn:Fx.
      - apply find_first in Fx. destruct Fx as [b [a [E1 [E2 E3]]]].
        exists b, x, a. repeat split; assumption.
      - exfalso. apply existsb_exists in E. destruct E as [d [Hin Hd]].
        rewrite find_none_iff in Fx. rewrite (Fx d Hin) in Hd. discriminate. }
    destruct F as [before [x [after [Hc [Hx Hb]]]]].
    rewrite Hc, updateOne_first by assumption. simpl.
    eexists. exists 200%nat. split; [reflexivity |].
    split; [right; right; reflexivity |].
    split; [split; [discriminate | intros [H | H]; discriminate] |].
    split.
    { split; [discriminate |]. intros [_ [_ O]]. exfalso.
      rewrite (O x) in Hx; [discriminate |].
      apply in_or_app. right; left; reflexivity. }
    split.
    { split; [| reflexivity]. intros _. repeat split.
      exists x. split; [| exact Hx].
      apply in_or_app. right; left; reflexivity. }
    split; [discriminate | intro H; congruence].
  - assert (O : orphan q (col w)).
    { intros d Hd. destruct (by_either_id q d) eqn:B; [| reflexivity].
      assert (existsb (by_either_id q) (col w) = true)
        by (apply existsb_exists; exists d; split; assumption).
      congruence. }
    rewrite (updateOne_none _ _ _ O). simpl.
    eexists. exists 404%nat. split; [reflexivity |].
    split; [right; left; reflexivity |].
    split; [split; [discriminate | intros [H | H]; discriminate] |].
    split; [split; [intros _; repeat split; exact O | reflexivity] |].
    split.
    { split; [discriminate |]. intros [_ [_ [d [Hin Hd]]]].
      rewrite (O d Hin) in Hd. discriminate. }
    split; [discriminate | reflexivity].
Qed.

Lemma post_status_answers_witness :
  to_bson (get m9_read "id") = Some (BStr "m9") /\
  to_bson (get m9_read "status") = Some (BStr "read") /\
  nullish m9_read = false /\
  exists w' code,
    post_status tick_clock m9_read m1_stored = (w', Ok code) /\
    (code = 404%nat <->
     truthy (get m9_read "id") = true /\ truthy (get m9_read "status") = true /\
     orphan (BStr "m9") (col m1_stored)).
Proof.
  assert (Q : to_bson (get m9_read "id") = Some (BStr "m9")) by reflexivity.
  assert (S : to_bson (get m9_read "status") = Some (BStr "read")) by reflexivity.
  assert (N : nullish m9_read = false) by reflexivity.
  split; [exact Q |]. split; [exact S |]. split; [exact N |].
  destruct (proj2 (post_status_answers tick_clock m9_read (BStr "m9") (BStr "read")
                     m1_stored Q S) N)
    as [w' [code [R [_ [_ [A _]]]]]].
  exists w', code. split; [exact R | exact A].
Defined.

(** *** The change feed *)

Lemma emit_all_appends (es : list event) (io : sockets) :
  emit_all es io = map (fun received => received ++ es) io.
Proof.
  unfold emit_all. revert io. induction es as [| e es IH]; intro io; simpl.
  - rewrite <- (map_id io) at 1. apply map_ext. intro r. symmetry; apply app_nil_r.
  - rewrite IH. unfold emit. rewrite map_map. apply map_ext.
    intro r. rewrite <- app_assoc. reflexivity.
Qed.

(** X16.  On a feed whose changes carry their documents, every connected
    socket receives the same events, in the order of the feed, after what it
    had received before. *)
Theorem feed_reaches_every_socket (feed : list change) (io : sockets) :
  Forall (fun ch => fullDocument ch <> None) feed ->
  deliver_all feed io = Ok (map (fun received => received ++ events_of feed) io).
Proof.
  intro F. revert io. induction F as [| ch feed Hch F IH]; intro io; simpl.
  - f_equal. rewrite <- (map_id io) at 1. apply map_ext.
    intro r. symmetry; apply app_nil_r.
  - unfold deliver.
    assert (E : exists es, on_change ch = Ok es).
    { unfold on_change. destruct (fullDocument ch); [| congruence].
      destruct (operationType ch =? "insert")%string; [eexists; reflexivity |].
      destruct ((operationType ch =? "update")%string
                || (operationType ch =? "replace")%string); eexists; reflexivity. }
    destruct E as [es E]. rewrite E. rewrite IH, emit_all_appends, map_map.
    f_equal. apply map_ext. intro r. rewrite <- app_assoc. reflexivity.
Qed.

Lemma feed_reaches_every_socket_witness :
  Forall (fun ch => fullDocument ch <> None)
    [mkChange "insert" (Some m1_record);
     mkChange "update" (Some (set_status (BStr "read") (DateAt 2) m1_record))] /\
  deliver_all
    [mkChange "insert" (Some m1_record);
     mkChange "update" (Some (set_status (BStr "read") (DateAt 2) m1_record))]
    [[]; []]
  = Ok (map (fun received =>
               received ++
               events_of
                 [mkChange "insert" (Some m1_record);
                  mkChange "update"
                    (Some (set_status (BStr "read") (DateAt 2) m1_record))])
          [[]; []]).
Proof.
  assert (F : Forall (fun ch => fullDocument ch <> None)
                [mkChange "insert" (Some m1_record);
                 mkChange "update"
                   (Some (set_status (BStr "read") (DateAt 2) m1_record))]).
  { repeat constructor; discriminate. }
  split; [exact F |].
  exact (feed_reaches_every_socket _ [[]; []] F).
Defined.

End QueryProps.

(* ===================================================================== *)
(** ** Further properties: the routes that insert *)
(* ===================================================================== *)

Module WriteProps.
Import JS Mongo Effects Ingest Resolver Server Writes Spec Further.
Import StoreFacts RunFacts ServerProps QueryProps Examples.

(** *** The unique index *)

Lemma keys_hold (s : string) (f : bson) : In (BStr s) (index_keys f) <-> holds s f.
Proof.
  unfold holds. destruct f as [ | | b | n | x | items]; simpl;
    try (split; [intros [H | []]; discriminate
                | intros [H | [items [H _]]]; discriminate]).
  - split; [intros [] | intros [H | [items [H _]]]; discriminate].
  - split; [intros [H | []]; left; exact H | intros [H | [items [H _]]];
              [left; exact H | discriminate]].
  - destruct items as [| y items]; simpl.
    + split; [intros [H | []]; discriminate |].
      intros [H | [items [H Hin]]]; [discriminate |].
      injection H as <-. destruct Hin.
    + split.
      * intro H. right. exists (y :: items). split; [reflexivity | exact H].
      * intros [H | [items' [H Hin]]]; [discriminate |].
        injection H as <-. exact Hin.
Qed.

Lemma duplicate_key_spec (f : fields bson) (c : collection) :
  duplicate_key f c = true
  <-> exists d k, In d c /\ In k (index_keys (msg_id f)) /\ In k (msg_keys d).
Proof.
  unfold duplicate_key. rewrite existsb_exists. split.
  - intros [d [Hd E]]. apply existsb_exists in E. destruct E as [k [Hk E]].
    apply existsb_eqb in E. exists d, k. repeat split; assumption.
  - intros [d [k [Hd [Hk E]]]]. exists d. split; [exact Hd |].
    apply existsb_exists. exists k. split; [exact Hk |].
    apply existsb_eqb. exact E.
Qed.

(** A document with a string as [msg_id] is refused exactly when a stored
    document has this string as [msg_id], alone or in an array. *)
Lemma duplicate_key_string (f : fields bson) (c : collection) (s : string) :
  msg_id f = BStr s ->
  (duplicate_key f c = true
   <-> exists d, In d c /\ holds s (msg_id (content d))).
Proof.
  intro E. rewrite duplicate_key_spec, E. simpl. split.
  - intros [d [k [Hd [[<- | []] Hk]]]]. exists d. split; [exact Hd |].
    apply keys_hold. exact Hk.
  - intros [d [Hd H]]. exists d, (BStr s). split; [exact Hd |].
    split; [left; reflexivity | apply keys_hold; exact H].
Qed.

Lemma insertOne_spec (d : fields value) (u : Date) (w : world) :
  match insertOne d u w with
  | (w', Ok oid) =>
      exists f, serialize d = Some f /\ duplicate_key f (col w) = false /\
                oid = next_oid w /\
                w' = mkWorld (col w ++ [mkDoc (next_oid w) f (stored_date u)])
                       (S (next_oid w)) (ticks w)
  | (w', Throw MongoError) =>
      exists f, serialize d = Some f /\ duplicate_key f (col w) = true /\ w' = w
  | (w', Throw Unsupported) => serialize d = None /\ w' = w
  | (w', Throw TypeError) => False
  end.
Proof.
  unfold insertOne. destruct (serialize d) as [f |]; [| split; reflexivity].
  destruct (duplicate_key f (col w)) eqn:D.
  - exists f. repeat split. exact D.
  - exists f. repeat split. exact D.
Qed.

Lemma insertOne_unique (d : fields value) (u : Date) (w : world) :
  unique_msg_id (col w) -> unique_msg_id (col (fst (insertOne d u w))).
Proof.
  intro U. pose proof (insertOne_spec d u w) as S.
  destruct (insertOne d u w) as [w' [oid | [ | | ]]]; simpl.
  - destruct S as [f [_ [D [_ ->]]]]. simpl.
    apply unique_snoc; [exact U |].
    intros x Hx [k [K1 K2]].
    assert (duplicate_key f (col w) = true); [| congruence].
    apply duplicate_key_spec. exists x, k. repeat split; assumption.
  - destruct S.
  - destruct S as [f [_ [_ ->]]]. exact U.
  - destruct S as [_ ->]. exact U.
Qed.

(** *** POST /api/send *)

(** After the guard of line 143, the answer of POST /api/send is decided by
    the insert. *)
Lemma send_stores (biz : option string) (clock : nat -> Z) (rnd : Z)
    (body : value) (w : world) :
  nullish body = false ->
  truthy (get body "wa_id") = true -> truthy (get body "text") = true ->
  send biz clock rnd body w
  = match insertOne
            (send_doc biz (get body "wa_id") (get body "text")
               (clock (ticks w)) rnd
               (DateAt (clock (S (ticks w)))) (DateAt (clock (S (S (ticks w))))))
            (DateAt (clock (S (S (S (ticks w))))))
            (mkWorld (col w) (next_oid w) (S (S (S (S (ticks w))))))
    with
    | (w', Ok _) => (w', Ok 201%nat)
    | (w', Throw Unsupported) => (w', Throw Unsupported)
    | (w', Throw _) => (w', Ok 500%nat)
    end.
Proof.
  intros N T1 T2. unfold send, bind at 1, lift, prop. rewrite N. simpl.
  rewrite T1, T2. simpl. unfold try_catch, bind, date_now, now. simpl.
  match goal with
  | |- context [insertOne ?d ?u ?w0] =>
      destruct (insertOne d u w0) as [w' [oid | [ | | ]]]; reflexivity
  end.
Qed.

Lemma serialize_send_doc (biz : option string) (wa_id text : value) (wa tx : bson)
    (ms rnd : Z) (t c : Z) :
  to_bson wa_id = Some wa -> to_bson text = Some tx ->
  exists from,
    to_bson (business_or_me biz) = Some from /\
    serialize (send_doc biz wa_id text ms rnd (DateAt t) (DateAt c))
    = Some (mkFields wa from wa (BStr (genLocalMsgId ms rnd)) BNull
              (BStr "outbound") tx (BStr "sent") (DateAt t) (DateAt c)).
Proof.
  intros W T.
  assert (F : exists from, to_bson (business_or_me biz) = Some from).
  { unfold business_or_me, or_else, env. destruct biz as [b |]; simpl;
      [destruct (negb (b =? "")%string) |]; eexists; reflexivity. }
  destruct F as [from F]. exists from. split; [exact F |].
  unfold serialize. cbn [send_doc Mongo.wa_id Mongo.from Mongo.to Mongo.msg_id
    Mongo.meta_msg_id Mongo.direction Mongo.text Mongo.status Mongo.timestamp
    Mongo.createdAt].
  rewrite W, F, T. reflexivity.
Qed.

(** X17.  POST /api/send for a request in which neither [wa_id] nor [text]
    holds an object.  Without a body the destructuring throws a TypeError,
    outside the [try], and nothing is written.  With a body the answer is
    400, 500 or 201.  It is 400 exactly when [wa_id] or [text] is falsy,
    and then nothing is stored and the clock is not read.  Else it is 500
    exactly when a stored document has the generated [msg_id], alone or in
    an array, and then the collection is as before.  Else it is 201, and
    the collection has one more document, after the others, which are as
    before: an outbound message in status 'sent', to the [wa_id] of the
    request, with its text, the generated [msg_id], a null [meta_msg_id]
    and the three times read from the clock. *)
Theorem send_answers
    (biz : option string) (clock : nat -> Z) (rnd : Z) (body : value)
    (wa tx : bson) (w : world) :
  to_bson (get body "wa_id") = Some wa ->
  to_bson (get body "text") = Some tx ->
  (nullish body = true -> send biz clock rnd body w = (w, Throw TypeError)) /\
  (nullish body = false ->
   exists w' code,
     send biz clock rnd body w = (w', Ok code) /\
     (code = 400%nat \/ code = 500%nat \/ code = 201%nat) /\
     (code = 400%nat <->
      truthy (get body "wa_id") = false \/ truthy (get body "text") = false) /\
     (code = 500%nat <->
      truthy (get body "wa_id") = true /\ truthy (get body "text") = true /\
      exists x, In x (col w) /\
                holds (genLocalMsgId (clock (ticks w)) rnd) (msg_id (content x))) /\
     (code = 400%nat -> w' = w) /\
     (code = 500%nat -> col w' = col w) /\
     (code = 201%nat ->
      exists d,
        col w' = col w ++ [d] /\
        wa_id (content d) = wa /\
        to (content d) = wa /\
        text (content d) = tx /\
        to_bson (business_or_me biz) = Some (from (content d)) /\
        msg_id (content d) = BStr (genLocalMsgId (clock (ticks w)) rnd) /\
        meta_msg_id (content d) = BNull /\
        direction (content d) = BStr "outbound" /\
        status (content d) = BStr "sent" /\
        timestamp (content d) = DateAt (clock (S (ticks w))) /\
        createdAt (content d) = DateAt (clock (S (S (ticks w)))) /\
        updatedAt d = DateAt (clock (S (S (S (ticks w))))))).
Proof.
  intros W T. split; intro N.
  { unfold send, bind, lift, prop. rewrite N. reflexivity. }
  destruct (truthy (get body "wa_id")) eqn:T1.
  2: { exists w, 400%nat. split.
       { unfold send, bind, lift, prop. rewrite N. simpl. rewrite T1. reflexivity. }
       repeat split; auto; try discriminate; intros [H _]; discriminate. }
  destruct (truthy (get body "text")) eqn:T2.
  2: { exists w, 400%nat. split.
       { unfold send, bind, lift, prop. rewrite N. simpl. rewrite T1, T2.
         reflexivity. }
       repeat split; auto; try discriminate; intros [_ [H _]]; discriminate. }
  rewrite send_stores by assumption.
  destruct (serialize_send_doc biz _ _ wa tx (clock (ticks w)) rnd
              (clock (S (ticks w))) (clock (S (S (ticks w)))) W T)
    as [from [F Sd]].
  unfold insertOne. rewrite Sd. cbn [col].
  match goal with
  | |- context [duplicate_key ?f (col w)] =>
      pose proof (duplicate_key_string f (col w) _ eq_refl) as D;
      destruct (duplicate_key f (col w))
  end.
  - assert (X : exists x, In x (col w) /\
                  holds (genLocalMsgId (clock (ticks w)) rnd) (msg_id (content x)))
      by (apply D; reflexivity).
    eexists. exists 500%nat. split; [reflexivity |].
    split; [right; left; reflexivity |].
    split; [split; [discriminate | intros [H | H]; discriminate] |].
    split; [split; [intros _; repeat split; exact X | reflexivity] |].
    split; [discriminate |]. split; [reflexivity | discriminate].
  - eexists. exists 201%nat. split; [reflexivity |].
    split; [right; right; reflexivity |].
    split; [split; [discriminate | intros [H | H]; discriminate] |].
    split.
    { split; [discriminate |]. intros [_ [_ X]]. apply D in X. discriminate. }
    split; [discriminate |]. split; [discriminate |].
    intros _. eexists. split; [reflexivity |]. simpl.
    repeat split. exact F.
Qed.

Lemma send_answers_witness :
  to_bson (get hello_to_111 "wa_id") = Some (BStr "111") /\
  to_bson (get hello_to_111 "text") = Some (BStr "hello") /\
  nullish hello_to_111 = false /\
  exists d,
    col (fst (send (Some "15550001111") tick_clock 7 hello_to_111 m1_stored))
    = [m1_record; d]
    /\ msg_id (content d) = BStr "local-2-7"
    /\ status (content d) = BStr "sent".
Proof.
  assert (W : to_bson (get hello_to_111 "wa_id") = Some (BStr "111")) by reflexivity.
  assert (T : to_bson (get hello_to_111 "text") = Some (BStr "hello")) by reflexivity.
  assert (N : nullish hello_to_111 = false) by reflexivity.
  split; [exact W |]. split; [exact T |]. split; [exact N |].
  destruct (proj2 (send_answers (Some "15550001111") tick_clock 7 hello_to_111
                     (BStr "111") (BStr "hello") m1_stored W T) N)
    as [w' [code [R [_ [_ [_ [_ [_ C]]]]]]]].
  assert (E : send (Some "15550001111") tick_clock 7 hello_to_111 m1_stored
              = (fst (send (Some "15550001111") tick_clock 7 hello_to_111 m1_stored),
                 Ok 201%nat)) by reflexivity.
  rewrite E in R. injection R as <- <-.
  destruct (C eq_refl) as [d F]. exists d.
  split; [exact (proj1 F) |].
  split; [exact (proj1 (proj2 (proj2 (proj2 (proj2 (proj2 F)))))) |].
  exact (proj1 (proj2 (proj2 (proj2 (proj2 (proj2 (proj2 (proj2 (proj2 F))))))))).
Defined.

(** *** GET /api/test-message *)

Lemma test_message_stores (biz : option string) (clock : nat -> Z) (rnd : Z)
    (query : value) (w : world) :
  test_message biz clock rnd query w
  = match insertOne
            (test_doc biz
               (or_else (get query "wa_id")
                  (or_else (env biz) (VStr "919937320320")))
               (or_else (get query "text") (VStr "Test inbound message"))
               (clock (ticks w)) rnd
               (DateAt (clock (S (ticks w)))) (DateAt (clock (S (S (ticks w))))))
            (DateAt (clock (S (S (S (ticks w))))))
            (mkWorld (col w) (next_oid w) (S (S (S (S (ticks w))))))
    with
    | (w', Ok _) => (w', Ok 200%nat)
    | (w', Throw Unsupported) => (w', Throw Unsupported)
    | (w', Throw _) => (w', Ok 500%nat)
    end.
Proof.
  unfold test_message, try_catch, bind, date_now, now. simpl.
  match goal with
  | |- context [insertOne ?d ?u ?w0] =>
      destruct (insertOne d u w0) as [w' [oid | [ | | ]]]; reflexivity
  end.
Qed.

Lemma insert_and_answer_unique (d : fields value) (u : Date) (a b : nat)
    (w w0 : world) :
  col w0 = col w ->
  unique_msg_id (col w) ->
  unique_msg_id
    (col (fst (match insertOne d u w0 with
               | (w', Ok _) => (w', Ok a)
               | (w', Throw Unsupported) => (w', Throw Unsupported)
               | (w', Throw _) => (w', Ok b)
               end))).
Proof.
  intros E U. rewrite <- E in U. pose proof (insertOne_unique d u w0 U) as I.
  destruct (insertOne d u w0) as [w' [oid | [ | | ]]]; exact I.
Qed.

(** X18.  Neither POST /api/send nor GET /api/test-message ever stores a
    second document with a [msg_id] that a stored document has: a collection
    with at most one document for each [msg_id] stays so, whatever the
    request and whatever the clock and the random number give. *)
Theorem inserting_routes_keep_msg_id_unique
    (biz : option string) (clock : nat -> Z) (rnd : Z) (request : value)
    (w : world) :
  unique_msg_id (col w) ->
  unique_msg_id (col (fst (send biz clock rnd request w))) /\
  unique_msg_id (col (fst (test_message biz clock rnd request w))).
Proof.
  intro U. split.
  - destruct (nullish request) eqn:N.
    { unfold send, bind, lift, prop. rewrite N. exact U. }
    destruct (truthy (get request "wa_id")) eqn:T1.
    2: { unfold send, bind, lift, prop. rewrite N. simpl. rewrite T1. exact U. }
    destruct (truthy (get request "text")) eqn:T2.
    2: { unfold send, bind, lift, prop. rewrite N. simpl. rewrite T1, T2. exact U. }
    rewrite send_stores by assumption.
    apply (insert_and_answer_unique _ _ _ _ w); [reflexivity | exact U].
  - rewrite test_message_stores.
    apply (insert_and_answer_unique _ _ _ _ w); [reflexivity | exact U].
Qed.

Lemma inserting_routes_keep_msg_id_unique_witness :
  unique_msg_id (col m1_stored) /\
  unique_msg_id (col (fst (send (Some "15550001111") tick_clock 7 hello_to_111 m1_stored))).
Proof.
  assert (U : unique_msg_id (col m1_stored)).
  { unfold unique_msg_id. simpl. constructor; constructor. }
  split; [exact U |].
  exact (proj1 (inserting_routes_keep_msg_id_unique
                  (Some "15550001111") tick_clock 7 hello_to_111 m1_stored U)).
Defined.

Lemma send_created (biz : option string) (clock : nat -> Z) (rnd : Z)
    (body : value) (w w1 : world) :
  send biz clock rnd body w = (w1, Ok 201%nat) ->
  exists f,
    msg_id f = BStr (genLocalMsgId (clock (ticks w)) rnd) /\
    duplicate_key f (col w) = false /\
    w1 = mkWorld (col w ++ [mkDoc (next_oid w) f (DateAt (clock (S (S (S (ticks w))))))])
           (S (next_oid w)) (S (S (S (S (ticks w))))).
Proof.
  destruct (nullish body) eqn:N.
  { unfold send, bind, lift, prop. rewrite N. simpl. discriminate. }
  destruct (truthy (get body "wa_id")) eqn:T1.
  2: { unfold send, bind, lift, prop. rewrite N. simpl. rewrite T1. simpl.
       discriminate. }
  destruct (truthy (get body "text")) eqn:T2.
  2: { unfold send, bind, lift, prop. rewrite N. simpl. rewrite T1, T2. simpl.
       discriminate. }
  rewrite send_stores by assumption.
  match goal with
  | |- context [insertOne ?d ?u ?w0] =>
      pose proof (insertOne_spec d u w0) as S;
      destruct (insertOne d u w0) as [w' [oid | [ | | ]]]
  end; simpl in S; try discriminate.
  destruct S as [f [Sf [D [_ ->]]]]. intro H. inversion H; subst.
  exists f. destruct (serialize_all _ _ Sf) as [_ [_ [_ [Eid _]]]].
  simpl in Eid. inversion Eid. repeat split. exact D.
Qed.

(** X19.  A message stored by POST /api/send can be given a status by POST
    /api/status with the [msg_id] it was stored under, provided no earlier
    document has this id as its [meta_msg_id], alone or in an array: the
    answer is 200 and the new document, and no other, gets the status. *)
Theorem sent_message_takes_a_status
    (biz : option string) (clock : nat -> Z) (rnd : Z) (body st : value)
    (q : bson) (w w1 : world) :
  send biz clock rnd body w = (w1, Ok 201%nat) ->
  Forall (fun x => ~ holds (genLocalMsgId (clock (ticks w)) rnd)
                      (meta_msg_id (content x))) (col w) ->
  truthy st = true -> to_bson st = Some q ->
  exists d,
    col w1 = col w ++ [d] /\
    post_status clock
      (VObj [("id", VStr (genLocalMsgId (clock (ticks w)) rnd)); ("status", st)]) w1
    = (mkWorld (col w ++ [set_status q (DateAt (clock (ticks w1))) d])
         (next_oid w1) (S (ticks w1)),
       Ok 200%nat).
Proof.
  intros H M T Q. destruct (send_created _ _ _ _ _ _ H) as [f [Eid [D ->]]].
  exists (mkDoc (next_oid w) f (DateAt (clock (S (S (S (ticks w))))))).
  split; [reflexivity |].
  unfold post_status, try_catch, bind, lift, prop. simpl. rewrite T. simpl.
  unfold updateOne_status, update. simpl. rewrite Q.
  rewrite updateOne_first.
  - reflexivity.
  - intros x Hx. unfold by_either_id. apply orb_false_iff. split.
    + destruct (field_matches (BStr (genLocalMsgId (clock (ticks w)) rnd))
                  (msg_id (content x))) eqn:E; [| reflexivity].
      apply field_matches_string in E.
      assert (duplicate_key f (col w) = true); [| congruence].
      apply (duplicate_key_string f (col w) _ Eid).
      exists x. split; assumption.
    + destruct (field_matches (BStr (genLocalMsgId (clock (ticks w)) rnd))
                  (meta_msg_id (content x))) eqn:E; [| reflexivity].
      apply field_matches_string in E.
      rewrite Forall_forall in M. exfalso. exact (M x Hx E).
  - unfold by_either_id. cbn [content]. rewrite Eid.
    rewrite (proj2 (field_matches_string _ _) (or_introl eq_refl)). reflexivity.
Qed.

Lemma sent_message_takes_a_status_witness :
  send (Some "15550001111") tick_clock 7 hello_to_111 m1_stored
  = (fst (send (Some "15550001111") tick_clock 7 hello_to_111 m1_stored), Ok 201%nat)
  /\ Forall (fun x => ~ holds (genLocalMsgId (tick_clock (ticks m1_stored)) 7)
                        (meta_msg_id (content x)))
       (col m1_stored)
  /\ truthy (VStr "read") = true
  /\ to_bson (VStr "read") = Some (BStr "read")
  /\ exists d,
       col (fst (send (Some "15550001111") tick_clock 7 hello_to_111 m1_stored))
       = col m1_stored ++ [d]
       /\ post_status tick_clock
            (VObj [("id", VStr (genLocalMsgId (tick_clock (ticks m1_stored)) 7));
                   ("status", VStr "read")])
            (fst (send (Some "15550001111") tick_clock 7 hello_to_111 m1_stored))
          = (mkWorld
               (col m1_stored
                ++ [set_status (BStr "read")
                      (DateAt
                         (tick_clock
                            (ticks
                               (fst (send (Some "15550001111") tick_clock 7
                                       hello_to_111 m1_stored)))))
                      d])
               (next_oid
                  (fst (send (Some "15550001111") tick_clock 7 hello_to_111 m1_stored)))
               (S (ticks
                     (fst (send (Some "15550001111") tick_clock 7 hello_to_111
                             m1_stored)))),
             Ok 200%nat).
Proof.
  assert (H : send (Some "15550001111") tick_clock 7 hello_to_111 m1_stored
              = (fst (send (Some "15550001111") tick_clock 7 hello_to_111 m1_stored),
                 Ok 201%nat)) by reflexivity.
  assert (M : Forall (fun x => ~ holds (genLocalMsgId (tick_clock (ticks m1_stored)) 7)
                                 (meta_msg_id (content x)))
                (col m1_stored)).
  { constructor; [| constructor].
    intros [E | [items [E _]]]; discriminate E. }
  split; [exact H |]. split; [exact M |].
  split; [reflexivity |]. split; [reflexivity |].
  exact (sent_message_takes_a_status (Some "15550001111") tick_clock 7 hello_to_111
           (VStr "read") (BStr "read") m1_stored _ H M eq_refl eq_refl).
Defined.

Lemma chats_ids (invalid_time : Z) (c : collection) (k : bson) :
  In k (map Chat._id (chats invalid_time c)) <-> In k (map group_key c).
Proof.
  unfold chats. rewrite !in_map_iff. split.
  - intros [g [Hg Hin]]. apply In_sort_by in Hin.
    assert (G : In k (map Chat._id (group (sort_by (newest_first invalid_time) c))))
      by (apply in_map_iff; exists g; split; assumption).
    apply group_ids in G. apply in_map_iff in G. destruct G as [d [Hd Hind]].
    apply In_sort_by in Hind. exists d. split; assumption.
  - intros [d [Hd Hin]].
    assert (G : In k (map group_key (sort_by (newest_first invalid_time) c))).
    { apply in_map_iff. exists d. split; [exact Hd |]. apply In_sort_by; exact Hin. }
    apply group_ids in G. apply in_map_iff in G. destruct G as [g [Hg Hing]].
    exists g. split; [exact Hg |]. apply In_sort_by; exact Hing.
Qed.

(** X20.  After GET /api/test-message has answered 200, the chat list has
    an entry for the [wa_id] the message was stored under (the one of the
    query, or else BUSINESS_NUMBER, or else '919937320320'), and its unread
    count is one more than the number of unread inbound documents the
    conversation had. *)
Theorem test_message_shows_as_unread
    (biz : option string) (clock : nat -> Z) (rnd : Z) (query : value)
    (invalid_time : Z) (w w' : world) :
  test_message biz clock rnd query w = (w', Ok 200%nat) ->
  exists k chat,
    to_bson (or_else (get query "wa_id")
               (or_else (env biz) (VStr "919937320320"))) = Some k /\
    In chat (chats invalid_time (col w')) /\
    Chat._id chat = k /\
    Chat.unreadCount chat = S (unread_in k (col w)).
Proof.
  rewrite test_message_stores.
  match goal with
  | |- context [insertOne ?d ?u ?w0] =>
      pose proof (insertOne_spec d u w0) as S;
      destruct (insertOne d u w0) as [w1 [oid | [ | | ]]]
  end; simpl in S; try discriminate.
  destruct S as [f [Sf [D [_ ->]]]]. intro H. inversion H; subst. clear H.
  destruct (serialize_all _ _ Sf) as [Ewa [_ [_ [_ [_ [Edir [_ [Est _]]]]]]]].
  cbn [test_doc wa_id direction status] in Ewa, Edir, Est.
  inversion Edir as [Edir']. inversion Est as [Est'].
  set (d := mkDoc (next_oid w) f (DateAt (clock (S (S (S (ticks w))))))).
  assert (K : group_key d = wa_id f).
  { unfold group_key, d. cbn [content]. apply to_bson_present in Ewa.
    destruct (wa_id f); simpl in Ewa; try discriminate; reflexivity. }
  assert (I : In (wa_id f) (map Chat._id (chats invalid_time (col w ++ [d])))).
  { apply chats_ids. apply in_map_iff. exists d. split; [exact K |].
    apply in_or_app. right; left; reflexivity. }
  apply in_map_iff in I. destruct I as [chat [Hid Hin]].
  exists (wa_id f), chat. cbn [col].
  split; [exact Ewa |]. split; [exact Hin |]. split; [exact Hid |].
  pose proof (chats_summarize invalid_time (col w ++ [d])) as F.
  rewrite Forall_forall in F. destruct (F chat Hin) as [x [_ [_ [_ [_ [_ E]]]]]].
  rewrite E, Hid.
  rewrite (unread_in_perm _ _ _ (sort_by_perm (newest_first invalid_time) (col w ++ [d]))).
  rewrite unread_in_snoc.
  assert (G : in_group (wa_id f) d = true) by (apply in_group_iff; exact K).
  assert (U : is_unread d = true).
  { unfold is_unread, d. cbn [content]. rewrite <- Edir', <- Est'. reflexivity. }
  rewrite G, U. simpl. apply Nat.add_1_r.
Qed.

Lemma test_message_shows_as_unread_witness :
  test_message None tick_clock 7 (VObj []) m1_stored
  = (fst (test_message None tick_clock 7 (VObj []) m1_stored), Ok 200%nat)
  /\ exists k chat,
       to_bson (or_else (get (VObj []) "wa_id")
                  (or_else (env None) (VStr "919937320320"))) = Some k
       /\ In chat (chats 0 (col (fst (test_message None tick_clock 7 (VObj []) m1_stored))))
       /\ Chat._id chat = k
       /\ Chat.unreadCount chat = S (unread_in k (col m1_stored)).
Proof.
  assert (H : test_message None tick_clock 7 (VObj []) m1_stored
              = (fst (test_message None tick_clock 7 (VObj []) m1_stored), Ok 200%nat))
    by reflexivity.
  split; [exact H |].
  exact (test_message_shows_as_unread None tick_clock 7 (VObj []) 0 m1_stored _ H).
Defined.

End WriteProps.

(* ===================================================================== *)
(** ** Reading a conversation and the unread count *)
(* ===================================================================== *)

Module ReadProps.
Import JS Mongo Effects Ingest Resolver Server Writes Spec Further.
Import StoreFacts RunFacts ServerProps QueryProps Examples.






End ReadProps.
